(** * planetary-viewer: camera state machine and texture generator

    A shallow embedding of [camera.py], [config.py],
    [texture_generator.py], the event loop of [planetary_viewer.py] and
    the lighting of [renderer.py].  Python floats are idealised as real
    numbers ([R]); numpy arrays of shape (3,) are the record [vec3].
    Every attribute of the Python [Camera] object is a field of the
    record [Camera], and every method is a function from the state
    before the call to the state after it.  The reals have no [nan] and
    no [inf]: where the code divides by zero the methods are given a
    second time, as partial functions, in the module [Partial]. *)

From Stdlib Require Import Reals Lra Lia ZArith List String Bool.
Import ListNotations.
Open Scope R_scope.

(** ** numpy vectors of length three *)

Module Vec.

Record vec3 : Type := mk { x : R; y : R; z : R }.

(** [np.zeros(3)] *)
Definition zeros : vec3 := mk 0 0 0.

(** [a + b] *)
Definition add (a b : vec3) : vec3 :=
  mk (x a + x b) (y a + y b) (z a + z b).

(** [a * s], an array times a scalar *)
Definition scale (a : vec3) (s : R) : vec3 :=
  mk (x a * s) (y a * s) (z a * s).

(** [a / s], an array divided by a scalar, for a divisor [s <> 0].
    For [s = 0] numpy stores [nan] or [inf] (with a warning, no
    exception), values that [R] does not have, while the quotient on
    [R] is the conventional [0]: there this function says nothing about
    the code.  [Partial.div] below is the division with that case kept
    apart, and a statement about stored vectors holds of the code on
    the runs that [Partial.run] accepts. *)
Definition div (a : vec3) (s : R) : vec3 :=
  mk (x a / s) (y a / s) (z a / s).

(** [np.cross(a, b)] *)
Definition cross (a b : vec3) : vec3 :=
  mk (y a * z b - z a * y b)
     (z a * x b - x a * z b)
     (x a * y b - y a * x b).

(** [np.linalg.norm(a)] *)
Definition norm (a : vec3) : R :=
  sqrt (x a * x a + y a * y a + z a * z a).

End Vec.


(** [np.clip(v, lo, hi)], which numpy defines as
    [minimum(maximum(v, lo), hi)]. *)
Definition clip (v lo hi : R) : R := Rmin (Rmax v lo) hi.

(** ** config.py *)

Record Config : Type := mkConfig {
  initial_distance : R;
  max_distance : R;
  mouse_sensitivity : R;
  zoom_speed : R;
  camera_speed : R;
  camera_boost_factor : R;
  planet_radius : R;
  texture_width : Z;
  texture_height : Z
}.

(** The defaults of the pydantic model. *)
Definition default_config : Config :=
  {| initial_distance := 30; max_distance := 50;
     mouse_sensitivity := 0.005; zoom_speed := 0.5;
     camera_speed := 0.1; camera_boost_factor := 2;
     planet_radius := 10;
     texture_width := 512; texture_height := 256 |}.

(** The [Field(..., ge=, le=)] bounds of the camera and planet settings. *)
Definition valid_config (g : Config) : Prop :=
  10 <= initial_distance g <= 100 /\
  20 <= max_distance g <= 200 /\
  0.001 <= mouse_sensitivity g <= 0.1 /\
  0.1 <= zoom_speed g <= 2 /\
  0.01 <= camera_speed g <= 1 /\
  1.1 <= camera_boost_factor g <= 5 /\
  1 <= planet_radius g <= 50 /\
  (512 <= texture_width g <= 8192)%Z /\
  (256 <= texture_height g <= 4096)%Z.

(** ** camera.py *)

(** [self.mode] only ever holds the strings ['orbit'] and ['free']. *)
Inductive Mode : Type := orbit | free.

Record Camera : Type := mkCamera {
  config : Config;
  distance : R;
  yaw : R;
  pitch : R;
  position : Vec.vec3;
  target : Vec.vec3;
  up : Vec.vec3;
  mode : Mode;
  speed : R;
  boost_factor : R;
  transition_progress : R;
  transition_duration : R;
  start_position : Vec.vec3;
  start_target : Vec.vec3;
  end_position : Vec.vec3;
  end_target : Vec.vec3
}.

(** Attribute assignments [self.f = v]. *)
Definition set_distance (v : R) (c : Camera) : Camera :=
  mkCamera (config c) v (yaw c) (pitch c) (position c) (target c) (up c)
    (mode c) (speed c) (boost_factor c) (transition_progress c)
    (transition_duration c) (start_position c) (start_target c)
    (end_position c) (end_target c).

Definition set_yaw (v : R) (c : Camera) : Camera :=
  mkCamera (config c) (distance c) v (pitch c) (position c) (target c) (up c)
    (mode c) (speed c) (boost_factor c) (transition_progress c)
    (transition_duration c) (start_position c) (start_target c)
    (end_position c) (end_target c).

Definition set_pitch (v : R) (c : Camera) : Camera :=
  mkCamera (config c) (distance c) (yaw c) v (position c) (target c) (up c)
    (mode c) (speed c) (boost_factor c) (transition_progress c)
    (transition_duration c) (start_position c) (start_target c)
    (end_position c) (end_target c).

Definition set_position (v : Vec.vec3) (c : Camera) : Camera :=
  mkCamera (config c) (distance c) (yaw c) (pitch c) v (target c) (up c)
    (mode c) (speed c) (boost_factor c) (transition_progress c)
    (transition_duration c) (start_position c) (start_target c)
    (end_position c) (end_target c).

Definition set_target (v : Vec.vec3) (c : Camera) : Camera :=
  mkCamera (config c) (distance c) (yaw c) (pitch c) (position c) v (up c)
    (mode c) (speed c) (boost_factor c) (transition_progress c)
    (transition_duration c) (start_position c) (start_target c)
    (end_position c) (end_target c).

Definition set_mode (v : Mode) (c : Camera) : Camera :=
  mkCamera (config c) (distance c) (yaw c) (pitch c) (position c) (target c)
    (up c) v (speed c) (boost_factor c) (transition_progress c)
    (transition_duration c) (start_position c) (start_target c)
    (end_position c) (end_target c).

Definition set_transition_progress (v : R) (c : Camera) : Camera :=
  mkCamera (config c) (distance c) (yaw c) (pitch c) (position c) (target c)
    (up c) (mode c) (speed c) (boost_factor c) v
    (transition_duration c) (start_position c) (start_target c)
    (end_position c) (end_target c).

Definition set_start_position (v : Vec.vec3) (c : Camera) : Camera :=
  mkCamera (config c) (distance c) (yaw c) (pitch c) (position c) (target c)
    (up c) (mode c) (speed c) (boost_factor c) (transition_progress c)
    (transition_duration c) v (start_target c)
    (end_position c) (end_target c).

Definition set_start_target (v : Vec.vec3) (c : Camera) : Camera :=
  mkCamera (config c) (distance c) (yaw c) (pitch c) (position c) (target c)
    (up c) (mode c) (speed c) (boost_factor c) (transition_progress c)
    (transition_duration c) (start_position c) v
    (end_position c) (end_target c).

Definition set_end_position (v : Vec.vec3) (c : Camera) : Camera :=
  mkCamera (config c) (distance c) (yaw c) (pitch c) (position c) (target c)
    (up c) (mode c) (speed c) (boost_factor c) (transition_progress c)
    (transition_duration c) (start_position c) (start_target c)
    v (end_target c).

Definition set_end_target (v : Vec.vec3) (c : Camera) : Camera :=
  mkCamera (config c) (distance c) (yaw c) (pitch c) (position c) (target c)
    (up c) (mode c) (speed c) (boost_factor c) (transition_progress c)
    (transition_duration c) (start_position c) (start_target c)
    (end_position c) v.

(** [Camera.__init__] *)
Definition init (g : Config) : Camera :=
  {| config := g;
     distance := initial_distance g;
     yaw := 0;
     pitch := 0;
     position := Vec.mk 0 0 (initial_distance g);
     target := Vec.zeros;
     up := Vec.mk 0 1 0;
     mode := orbit;
     speed := camera_speed g;
     boost_factor := camera_boost_factor g;
     transition_progress := 1;
     transition_duration := 1;
     start_position := Vec.mk 0 0 (initial_distance g);
     start_target := Vec.zeros;
     end_position := Vec.mk 0 0 (initial_distance g);
     end_target := Vec.zeros |}.

(** The bounds handed to [np.clip] for the pitch. *)
Definition pitch_lo : R := - PI / 2 + 0.1.
Definition pitch_hi : R := PI / 2 - 0.1.

(** [Camera._update_position] *)
Definition _update_position (c : Camera) : Camera :=
  set_position
    (Vec.mk (distance c * cos (pitch c) * sin (yaw c))
            (distance c * sin (pitch c))
            (distance c * cos (pitch c) * cos (yaw c))) c.

(** [Camera._get_forward_vector] *)
Definition _get_forward_vector (c : Camera) : Vec.vec3 :=
  Vec.mk (cos (pitch c) * sin (yaw c))
         (sin (pitch c))
         (cos (pitch c) * cos (yaw c)).

(** [Camera._update_orbit] *)
Definition _update_orbit (dx dy : R) (c : Camera) : Camera :=
  let c := set_yaw (yaw c + dx * mouse_sensitivity (config c)) c in
  let c := set_pitch (pitch c - dy * mouse_sensitivity (config c)) c in
  let c := set_pitch (clip (pitch c) pitch_lo pitch_hi) c in
  _update_position c.

(** [Camera._update_free] *)
Definition _update_free (dx dy : R) (c : Camera) : Camera :=
  let c := set_yaw (yaw c - dx * mouse_sensitivity (config c)) c in
  let c := set_pitch (pitch c - dy * mouse_sensitivity (config c)) c in
  let c := set_pitch (clip (pitch c) pitch_lo pitch_hi) c in
  let forward := _get_forward_vector c in
  set_target (Vec.add (position c) forward) c.

(** [Camera._ease_in_out_cubic]; [pow(b, 3)] is the cube. *)
Definition _ease_in_out_cubic (t : R) : R :=
  if Rlt_dec t 0.5 then 4 * t * t * t else 1 - (-2 * t + 2) ^ 3 / 2.

(** [Camera._update_transition]; Python's [min(1.0, v)] is [Rmin 1 v]. *)
Definition _update_transition (dt : R) (c : Camera) : Camera :=
  if Rlt_dec (transition_progress c) 1 then
    let c := set_transition_progress
               (Rmin 1 (transition_progress c + dt / transition_duration c)) c in
    let t := _ease_in_out_cubic (transition_progress c) in
    let c := set_position
               (Vec.add (Vec.scale (start_position c) (1 - t))
                        (Vec.scale (end_position c) t)) c in
    set_target
      (Vec.add (Vec.scale (start_target c) (1 - t))
               (Vec.scale (end_target c) t)) c
  else c.

(** [Camera.update] *)
Definition update (dx dy dt : R) (c : Camera) : Camera :=
  let c := match mode c with
           | orbit => _update_orbit dx dy c
           | free => _update_free dx dy c
           end in
  _update_transition dt c.

(** [Camera.move]; [right_vec /= norm] and the two [+=] act on arrays
    that no other attribute aliases (every stored array is a copy or a
    fresh result). *)
Definition move (forward right upward : R) (boost : bool) (c : Camera)
  : Camera :=
  match mode c with
  | orbit => c
  | free =>
      let speed := speed c * (if boost then boost_factor c else 1) in
      let forward_vec := _get_forward_vector c in
      let right_vec := Vec.cross forward_vec (up c) in
      let right_vec := Vec.div right_vec (Vec.norm right_vec) in
      let movement :=
        Vec.add (Vec.add (Vec.scale forward_vec forward)
                         (Vec.scale right_vec right))
                (Vec.scale (up c) upward) in
      let c := set_position
                 (Vec.add (position c) (Vec.scale movement speed)) c in
      set_target (Vec.add (target c) (Vec.scale movement speed)) c
  end.

(** [Camera.zoom] *)
Definition zoom (amount : R) (c : Camera) : Camera :=
  match mode c with
  | orbit =>
      let c := set_distance (distance c - amount * zoom_speed (config c)) c in
      let c := set_distance
                 (clip (distance c) (planet_radius (config c) + 0.1)
                       (max_distance (config c))) c in
      _update_position c
  | free => move (amount * zoom_speed (config c)) 0 0 false c
  end.

(** [Camera.toggle_mode] *)
Definition toggle_mode (c : Camera) : Camera :=
  let c :=
    match mode c with
    | orbit =>
        let c := set_mode free c in
        let c := set_end_position (position c) c in
        set_end_target (target c) c
    | free =>
        let c := set_mode orbit c in
        let c := set_distance (initial_distance (config c)) c in
        let c := set_yaw 0 c in
        let c := set_pitch 0 c in
        let c := _update_position c in
        let c := set_end_position (position c) c in
        set_end_target Vec.zeros c
    end in
  let c := set_start_position (position c) c in
  let c := set_start_target (target c) c in
  set_transition_progress 0 c.

(** [Camera.check_collision] *)
Definition check_collision (planet_radius : R) (c : Camera) : Camera :=
  let distance_to_center := Vec.norm (position c) in
  if Rlt_dec distance_to_center (planet_radius + 0.1) then
    let direction := Vec.div (position c) distance_to_center in
    let c := set_position (Vec.scale direction (planet_radius + 0.1)) c in
    match mode c with
    | orbit => set_distance (planet_radius + 0.1) c
    | free => c
    end
  else c.

(** ** Sequences of public operations, as the viewer loop issues them *)

Inductive Op : Type :=
| OpUpdate (dx dy dt : R)
| OpMove (forward right upward : R) (boost : bool)
| OpZoom (amount : R)
| OpToggle
| OpCheck (planet_radius : R).

Definition step (o : Op) (c : Camera) : Camera :=
  match o with
  | OpUpdate dx dy dt => update dx dy dt c
  | OpMove f r u b => move f r u b c
  | OpZoom a => zoom a c
  | OpToggle => toggle_mode c
  | OpCheck r => check_collision r c
  end.

(** The operations are applied from left to right. *)
Definition run (ops : list Op) (c : Camera) : Camera :=
  fold_left (fun c o => step o c) ops c.

(** ** The divisions of camera.py, with the zero divisor kept apart

    Three lines of [camera.py] divide: [dt / self.transition_duration]
    in [_update_transition], [right_vec /= np.linalg.norm(right_vec)]
    in [move] and [self.position / distance_to_center] in
    [check_collision].  With a zero divisor the first raises
    [ZeroDivisionError] and the other two store [nan] or [inf] in the
    array.  The functions of this module are the same methods with
    every division checked: [None] when a divisor is zero, and the
    state after the call otherwise. *)

Module Partial.

(** [a / s] on an array: a vector of numbers only for [s <> 0]. *)
Definition div (a : Vec.vec3) (s : R) : option Vec.vec3 :=
  if Req_dec_T s 0 then None else Some (Vec.div a s).

(** [Camera._update_transition] *)
Definition _update_transition (dt : R) (c : Camera) : option Camera :=
  if Rlt_dec (transition_progress c) 1 then
    if Req_dec_T (transition_duration c) 0 then None
    else
      let c := set_transition_progress
                 (Rmin 1 (transition_progress c + dt / transition_duration c))
                 c in
      let t := _ease_in_out_cubic (transition_progress c) in
      let c := set_position
                 (Vec.add (Vec.scale (start_position c) (1 - t))
                          (Vec.scale (end_position c) t)) c in
      Some (set_target
              (Vec.add (Vec.scale (start_target c) (1 - t))
                       (Vec.scale (end_target c) t)) c)
  else Some c.

(** [Camera.update] *)
Definition update (dx dy dt : R) (c : Camera) : option Camera :=
  let c := match mode c with
           | orbit => _update_orbit dx dy c
           | free => _update_free dx dy c
           end in
  _update_transition dt c.

(** [Camera.move] *)
Definition move (forward right upward : R) (boost : bool) (c : Camera)
  : option Camera :=
  match mode c with
  | orbit => Some c
  | free =>
      let speed := speed c * (if boost then boost_factor c else 1) in
      let forward_vec := _get_forward_vector c in
      let right_vec := Vec.cross forward_vec (up c) in
      match div right_vec (Vec.norm right_vec) with
      | None => None
      | Some right_vec =>
          let movement :=
            Vec.add (Vec.add (Vec.scale forward_vec forward)
                             (Vec.scale right_vec right))
                    (Vec.scale (up c) upward) in
          let c := set_position
                     (Vec.add (position c) (Vec.scale movement speed)) c in
          Some (set_target (Vec.add (target c) (Vec.scale movement speed)) c)
      end
  end.

(** [Camera.zoom] *)
Definition zoom (amount : R) (c : Camera) : option Camera :=
  match mode c with
  | orbit =>
      let c := set_distance (distance c - amount * zoom_speed (config c)) c in
      let c := set_distance
                 (clip (distance c) (planet_radius (config c) + 0.1)
                       (max_distance (config c))) c in
      Some (_update_position c)
  | free => move (amount * zoom_speed (config c)) 0 0 false c
  end.

(** [Camera.check_collision] *)
Definition check_collision (planet_radius : R) (c : Camera)
  : option Camera :=
  let distance_to_center := Vec.norm (position c) in
  if Rlt_dec distance_to_center (planet_radius + 0.1) then
    match div (position c) distance_to_center with
    | None => None
    | Some direction =>
        let c := set_position (Vec.scale direction (planet_radius + 0.1)) c in
        Some (match mode c with
              | orbit => set_distance (planet_radius + 0.1) c
              | free => c
              end)
    end
  else Some c.

Definition step (o : Op) (c : Camera) : option Camera :=
  match o with
  | OpUpdate dx dy dt => update dx dy dt c
  | OpMove f r u b => move f r u b c
  | OpZoom a => zoom a c
  | OpToggle => Some (toggle_mode c)
  | OpCheck r => check_collision r c
  end.

(** The operations from left to right, as long as each is defined. *)
Fixpoint run (ops : list Op) (c : Camera) : option Camera :=
  match ops with
  | [] => Some c
  | o :: ops =>
      match step o c with
      | None => None
      | Some c => run ops c
      end
  end.

End Partial.

(** ** texture_generator.py *)

Module Texture.

(** The exceptions the module raises or wraps, with their message. *)
Inductive exn : Type :=
| ValueError (msg : string)
| RuntimeError (msg : string).

(** [str(e)] *)
Definition str (e : exn) : string :=
  match e with
  | ValueError m => m
  | RuntimeError m => m
  end.

(** A generated image: rows of RGB texels, each channel an 8-bit value. *)
Definition pixel : Type := (Z * Z * Z)%type.
Record Image : Type := fromarray { pixels : list (list pixel) }.

Section Generate.

(** The state of numpy's global random generator, the only state the
    module touches, and the three outside functions it calls: the
    [noise] package's [snoise3] (which may raise), one draw of
    [np.random.randint(lo, hi)] and one draw of
    [np.random.uniform(lo, hi)]. *)
Variable Rng : Type.
Variable snoise3 : R -> R -> R -> Z -> R -> R -> exn + R.
Variable randint : Z -> Z -> Rng -> Z * Rng.
Variable uniform : R -> R -> Rng -> R * Rng.

(** Computations that read and advance the generator and may raise. *)
Definition M (A : Type) : Type := Rng -> (exn + A) * Rng.

Definition ret {A : Type} (a : A) : M A := fun s => (inr a, s).

Definition raise {A : Type} (e : exn) : M A := fun s => (inl e, s).

Definition bind {A B : Type} (m : M A) (k : A -> M B) : M B :=
  fun s => match m s with
           | (inl e, s') => (inl e, s')
           | (inr a, s') => k a s'
           end.

(** [try: m  except Exception as e: h e] *)
Definition try_except {A : Type} (m : M A) (h : exn -> M A) : M A :=
  fun s => match m s with
           | (inl e, s') => h e s'
           | (inr a, s') => (inr a, s')
           end.

Definition lift {A : Type} (r : exn + A) : M A := fun s => (r, s).

Notation "x <- m ;; k" := (bind m (fun x => k))
  (at level 61, m at next level, right associativity).

(** A [for] loop that fills one slot per element, in order. *)
Fixpoint for_each {A B : Type} (f : A -> M B) (l : list A) : M (list B) :=
  match l with
  | [] => ret []
  | a :: l' => b <- f a ;; bs <- for_each f l' ;; ret (b :: bs)
  end.

(** [range(n)] *)
Definition range (n : Z) : list Z := map Z.of_nat (seq 0 (Z.to_nat n)).

(** [TextureGenerator._create_seamless_noise] *)
Definition _create_seamless_noise (width height : Z) (scale : R)
    (octaves : Z) (persistence lacunarity : R) : M (list (list R)) :=
  for_each (fun y =>
    for_each (fun x =>
      let theta := IZR x / IZR width * 2 * PI in
      let phi := IZR y / IZR height * PI in
      let x3 := cos theta * sin phi in
      let y3 := sin theta * sin phi in
      let z3 := cos phi in
      lift (snoise3 (x3 * scale) (y3 * scale) (z3 * scale)
                    octaves persistence lacunarity))
      (range width))
    (range height).

(** Three draws, as [np.random.randint(lo, hi, 3)] and
    [np.random.uniform(lo, hi, 3)] make them. *)
Definition randint3 (lo hi : Z) : M (Z * Z * Z) :=
  fun s => let '(a, s) := randint lo hi s in
           let '(b, s) := randint lo hi s in
           let '(c, s) := randint lo hi s in
           (inr (a, b, c), s).

Definition uniform3 (lo hi : R) : M (R * R * R) :=
  fun s => let '(a, s) := uniform lo hi s in
           let '(b, s) := uniform lo hi s in
           let '(c, s) := uniform lo hi s in
           (inr (a, b, c), s).

(** [np.clip(v, 0, 255).astype(np.uint8)] on one channel: the value is
    within [0, 255] and the cast truncates. *)
Definition to_uint8 (v : R) : Z := Int_part (clip v 0 255).

(** [TextureGenerator._create_colored_texture] *)
Definition _create_colored_texture (noise : list (list R))
    (color1 color2 : Z * Z * Z) : M (list (list pixel)) :=
  for_each (fun row =>
    for_each (fun value =>
      let '(r1, g1, b1) := color1 in
      let '(r2, g2, b2) := color2 in
      let cr := IZR r1 * (1 - value) + IZR r2 * value in
      let cg := IZR g1 * (1 - value) + IZR g2 * value in
      let cb := IZR b1 * (1 - value) + IZR b2 * value in
      v <- uniform3 0.99 1.01 ;;
      let '(vr, vg, vb) := v in
      ret (to_uint8 (cr * vr), to_uint8 (cg * vg), to_uint8 (cb * vb)))
      row)
    noise.

(** [a.min()] and [a.max()] of a two-dimensional array; numpy raises
    [ValueError] on an array with no element. *)
Definition array_min (a : list (list R)) : M R :=
  match List.concat a with
  | [] => raise (ValueError
      "zero-size array to reduction operation minimum which has no identity")
  | v :: vs => ret (fold_left Rmin vs v)
  end.

Definition array_max (a : list (list R)) : M R :=
  match List.concat a with
  | [] => raise (ValueError
      "zero-size array to reduction operation maximum which has no identity")
  | v :: vs => ret (fold_left Rmax vs v)
  end.

(** Element-wise arithmetic on two arrays of one shape. *)
Definition array_map2 (f : R -> R -> R) (a b : list (list R))
  : list (list R) :=
  map (fun rows => map (fun vs => f (fst vs) (snd vs))
                       (combine (fst rows) (snd rows)))
      (combine a b).

(** [TextureGenerator.generate] *)
Definition generate (width height : Z) : M Image :=
  if ((width <=? 0)%Z || (height <=? 0)%Z)%bool then
    raise (ValueError "Width and height must be positive integers.")
  else
    try_except
      (base <- _create_seamless_noise width height 4 6 0.5 2 ;;
       detail <- _create_seamless_noise width height 20 8 0.6 2 ;;
       let combined :=
         array_map2 (fun b d => b * 0.7 + d * 0.3) base detail in
       lo <- array_min combined ;;
       hi <- array_max combined ;;
       let combined := map (map (fun v => (v - lo) / (hi - lo))) combined in
       color1 <- randint3 100 200 ;;
       color2 <- randint3 100 200 ;;
       texture <- _create_colored_texture combined color1 color2 ;;
       ret (fromarray texture))
      (fun e => raise (RuntimeError
                  ("Failed to generate texture: " ++ str e)%string)).

End Generate.

End Texture.

(** ** States and predicates used in the statements *)

(** The pitch is within the bounds that [update] clips it to. *)
Definition pitch_clamped (c : Camera) : Prop :=
  pitch_lo <= pitch c <= pitch_hi.

(** A camera of configuration [g] whose [up], [speed], [boost_factor]
    and [transition_duration] are as [__init__] set them. *)
Definition cam (g : Config) (d yw p : R) (pos tgt : Vec.vec3) (m : Mode)
    (prog : R) (sp st ep et : Vec.vec3) : Camera :=
  mkCamera g d yw p pos tgt (Vec.mk 0 1 0) m (camera_speed g)
    (camera_boost_factor g) prog 1 sp st ep et.

(** The default camera after [toggle_mode]: free mode, transition armed. *)
Definition s_free_armed : Camera :=
  cam default_config 30 0 0 (Vec.mk 0 0 30) Vec.zeros free 0
      (Vec.mk 0 0 30) Vec.zeros (Vec.mk 0 0 30) Vec.zeros.

(** ... after one second: the transition has completed. *)
Definition s_free_done : Camera :=
  cam default_config 30 0 0 (Vec.mk 0 0 30) Vec.zeros free 1
      (Vec.mk 0 0 30) Vec.zeros (Vec.mk 0 0 30) Vec.zeros.

(** ... after one more frame: the target is one unit ahead. *)
Definition s_free_looking : Camera :=
  cam default_config 30 0 0 (Vec.mk 0 0 30) (Vec.mk 0 0 31) free 1
      (Vec.mk 0 0 30) Vec.zeros (Vec.mk 0 0 30) Vec.zeros.

(** ... after one step forward. *)
Definition s_free_moved : Camera :=
  cam default_config 30 0 0 (Vec.mk 0 0 30.1) (Vec.mk 0 0 31.1) free 1
      (Vec.mk 0 0 30) Vec.zeros (Vec.mk 0 0 30) Vec.zeros.

(** The pose agrees with the formula of the current mode. *)
Definition pose_consistent (c : Camera) : Prop :=
  match mode c with
  | orbit =>
      position c = Vec.mk (distance c * cos (pitch c) * sin (yaw c))
                          (distance c * sin (pitch c))
                          (distance c * cos (pitch c) * cos (yaw c))
  | free => target c = Vec.add (position c) (_get_forward_vector c)
  end.

(** A configuration within the field bounds: the smallest planet, and a
    boosted speed of 0.55 * 2 = 1.1 per step. *)
Definition small_planet_config : Config :=
  {| initial_distance := 30; max_distance := 50;
     mouse_sensitivity := 0.005; zoom_speed := 0.5;
     camera_speed := 0.55; camera_boost_factor := 2;
     planet_radius := 1;
     texture_width := 512; texture_height := 256 |}.

(** Zoomed in as far as the clamp allows: on the boundary sphere. *)
Definition t_zoomed : Camera :=
  cam small_planet_config 1.1 0 0 (Vec.mk 0 0 1.1) Vec.zeros orbit 1
      (Vec.mk 0 0 30) Vec.zeros (Vec.mk 0 0 30) Vec.zeros.

(** Toggled to free mode, at transition progress [prog]. *)
Definition t_free (prog : R) : Camera :=
  cam small_planet_config 1.1 0 0 (Vec.mk 0 0 1.1) Vec.zeros free prog
      (Vec.mk 0 0 1.1) Vec.zeros (Vec.mk 0 0 1.1) Vec.zeros.

(** One boosted step backwards: the camera is at the origin, looking
    at [tgt]. *)
Definition t_centre (tgt : Vec.vec3) : Camera :=
  cam small_planet_config 1.1 0 0 Vec.zeros tgt free 1
      (Vec.mk 0 0 1.1) Vec.zeros (Vec.mk 0 0 1.1) Vec.zeros.

(** The three facts of the orbit invariant. *)
Definition orbit_invariant (c : Camera) : Prop :=
  mode c = orbit /\ Vec.norm (position c) = distance c /\
  target c = Vec.zeros.

(** What holds of the transition along every run: its progress never
    exceeds 1, and in orbit mode it ends at the origin and, once it has
    ended, has left the target there. *)
Definition transition_inv (c : Camera) : Prop :=
  transition_progress c <= 1 /\
  (mode c = orbit ->
   end_target c = Vec.zeros /\
   (1 <= transition_progress c -> target c = Vec.zeros)).

(** ** renderer.py: the light of the day/night cycle *)

Module Renderer.

(** Python's [x % y] on floats: [ZeroDivisionError] ([None]) for
    [y = 0], and otherwise [x - y * floor(x / y)], which has the sign
    of [y]. *)
Definition float_mod (x y : R) : option R :=
  if Req_dec_T y 0 then None
  else Some (x - y * IZR (Int_part (x / y))).

(** The arguments of the three [glLightfv] calls. *)
Record Lighting : Type := mkLighting {
  light_position : R * R * R * R;
  light_ambient : R * R * R * R;
  light_diffuse : R * R * R * R
}.

(** [Renderer._update_lighting]; [day_length] is
    [self.config.day_length]. *)
Definition _update_lighting (day_length time : R) : option Lighting :=
  match float_mod time day_length with
  | None => None
  | Some m =>
      let angle := m / day_length * 2 * PI in
      let light_x := cos angle in
      let light_y := 0.2 in
      let light_z := sin angle in
      let day_factor := (sin angle + 1) / 2 in
      let ambient := 0.2 + 0.2 * day_factor in
      Some {| light_position := (light_x, light_y, light_z, 0);
              light_ambient := (ambient, ambient, ambient, 1);
              light_diffuse := (0.8, 0.8, 0.8, 1) |}
  end.

End Renderer.

(** ** planetary_viewer.py: the event loop *)

Module Viewer.

(** The keys [handle_events] tells apart in a [KEYDOWN] event. *)
Inductive Key : Type := K_ESCAPE | K_SPACE | K_other.

(** The pygame events [handle_events] tells apart; [MOUSEMOTION]
    carries [event.rel], [MOUSEWHEEL] carries [event.y]. *)
Inductive Event : Type :=
| QUIT
| KEYDOWN (key : Key)
| MOUSEMOTION (rel_x rel_y : Z)
| MOUSEWHEEL (wheel_y : Z)
| OTHER.

(** The entries of [pygame.key.get_pressed()] that are read. *)
Record Pressed : Type := mkPressed {
  K_w : bool; K_s : bool; K_a : bool; K_d : bool;
  K_e : bool; K_q : bool; K_LSHIFT : bool; K_RSHIFT : bool
}.

(** [keys[p] - keys[n]], the difference of two booleans as a number. *)
Definition axis (p n : bool) : R := IZR (Z.b2z p - Z.b2z n).

(** The [for event in pygame.event.get()] loop of [handle_events]:
    [false] when the loop returned [False] from inside, leaving the
    events behind it unread. *)
Fixpoint process_events (events : list Event) (c : Camera)
  : bool * Camera :=
  match events with
  | [] => (true, c)
  | QUIT :: _ => (false, c)
  | KEYDOWN K_ESCAPE :: _ => (false, c)
  | MOUSEMOTION dx dy :: rest =>
      process_events rest (update (IZR dx) (IZR dy) 0 c)
  | MOUSEWHEEL wy :: rest => process_events rest (zoom (IZR wy) c)
  | KEYDOWN K_SPACE :: rest => process_events rest (toggle_mode c)
  | _ :: rest => process_events rest c
  end.

(** [PlanetaryViewer.handle_events] *)
Definition handle_events (events : list Event) (keys : Pressed)
    (c : Camera) : bool * Camera :=
  match process_events events c with
  | (false, c) => (false, c)
  | (true, c) =>
      match mode c with
      | free =>
          let forward := axis (K_w keys) (K_s keys) in
          let right := axis (K_d keys) (K_a keys) in
          let upward := axis (K_e keys) (K_q keys) in
          let boost := (K_LSHIFT keys || K_RSHIFT keys)%bool in
          (true, move forward right upward boost c)
      | orbit => (true, c)
      end
  end.

(** The viewer's camera and clock; renderer and planet only read. *)
Record PlanetaryViewer : Type := mkViewer {
  camera : Camera;
  time : R
}.

(** [PlanetaryViewer.__init__] *)
Definition init (g : Config) : PlanetaryViewer :=
  {| camera := init g; time := 0 |}.

(** One pass of the [while] loop of [PlanetaryViewer.run] for the
    elapsed time [dt], the queued events and the pressed keys; the
    boolean is [running].  The camera holds the viewer's [config]. *)
Definition frame (dt : R) (events : list Event) (keys : Pressed)
    (v : PlanetaryViewer) : bool * PlanetaryViewer :=
  let t := time v + dt in
  let '(running, c) := handle_events events keys (camera v) in
  let c := update 0 0 dt c in
  let c := check_collision (planet_radius (config c)) c in
  (running, {| camera := c; time := t |}).

(** [PlanetaryViewer.run] over the frames that happen: the loop stops
    after the first frame that clears [running]. *)
Fixpoint run (frames : list (R * list Event * Pressed))
    (v : PlanetaryViewer) : PlanetaryViewer :=
  match frames with
  | [] => v
  | (dt, events, keys) :: rest =>
      let '(running, v') := frame dt events keys v in
      if running then run rest v' else v'
  end.

(** The camera operations that the events of one frame amount to. *)
Fixpoint event_ops (events : list Event) : list Op :=
  match events with
  | [] => []
  | QUIT :: _ => []
  | KEYDOWN K_ESCAPE :: _ => []
  | MOUSEMOTION dx dy :: rest => OpUpdate (IZR dx) (IZR dy) 0 :: event_ops rest
  | MOUSEWHEEL wy :: rest => OpZoom (IZR wy) :: event_ops rest
  | KEYDOWN K_SPACE :: rest => OpToggle :: event_ops rest
  | _ :: rest => event_ops rest
  end.

End Viewer.

(** The inner loop of [_create_seamless_noise], for the row [y]. *)
Definition noise_row (Rng : Type)
    (snoise3 : R -> R -> R -> Z -> R -> R -> Texture.exn + R)
    (width height : Z) (scale : R) (octaves : Z)
    (persistence lacunarity : R) (y : Z) : Texture.M Rng (list R) :=
  Texture.for_each Rng (fun x =>
    let theta := IZR x / IZR width * 2 * PI in
    let phi := IZR y / IZR height * PI in
    let x3 := cos theta * sin phi in
    let y3 := sin theta * sin phi in
    let z3 := cos phi in
    Texture.lift Rng
      (snoise3 (x3 * scale) (y3 * scale) (z3 * scale)
               octaves persistence lacunarity))
    (Texture.range width).

(** A texel whose three channels are 8-bit values. *)
Definition pixel_in_range (px : Texture.pixel) : Prop :=
  let '(r, g, b) := px in
  (0 <= r <= 255)%Z /\ (0 <= g <= 255)%Z /\ (0 <= b <= 255)%Z.

(** A grid of [h] rows of [w] entries. *)
Definition has_shape {A : Type} (h w : nat) (grid : list (list A)) : Prop :=
  List.length grid = h /\ Forall (fun row => List.length row = w) grid.

(** * Properties *)

(** ** Setters and getters *)

(** Every setter is a record rebuild, so any projection of a chain of
    setters reduces once the camera is a constructor. *)
Ltac camera_simpl :=
  cbv [set_distance set_yaw set_pitch set_position set_target set_mode
       set_transition_progress set_start_position set_start_target
       set_end_position set_end_target
       config distance yaw pitch position target up mode speed boost_factor
       transition_progress transition_duration start_position start_target
       end_position end_target] in *.

Lemma vec3_eq (a b : Vec.vec3) :
  Vec.x a = Vec.x b -> Vec.y a = Vec.y b -> Vec.z a = Vec.z b -> a = b.
Proof. destruct a, b; simpl; intros; subst; reflexivity. Qed.

(** ** Clipping *)

Lemma clip_le_hi (v lo hi : R) : clip v lo hi <= hi.
Proof. unfold clip. apply Rmin_r. Qed.

Lemma clip_ge_lo (v lo hi : R) : lo <= hi -> lo <= clip v lo hi.
Proof.
  intro H. unfold clip. apply Rmin_glb; [apply Rmax_r | exact H].
Qed.

Lemma clip_inside (v lo hi : R) : lo <= v <= hi -> clip v lo hi = v.
Proof.
  intros [Hl Hh]. unfold clip.
  rewrite Rmax_left by exact Hl. apply Rmin_left. exact Hh.
Qed.

Lemma pitch_bounds_ordered : pitch_lo <= 0 <= pitch_hi.
Proof.
  unfold pitch_lo, pitch_hi. pose proof PI2_1. lra.
Qed.

Lemma pitch_lo_le_hi : pitch_lo <= pitch_hi.
Proof. pose proof pitch_bounds_ordered. lra. Qed.

Lemma clipped_pitch_strict (v : R) :
  - (PI / 2) < clip v pitch_lo pitch_hi < PI / 2.
Proof.
  pose proof (clip_ge_lo v _ _ pitch_lo_le_hi) as Hl.
  pose proof (clip_le_hi v pitch_lo pitch_hi) as Hh.
  unfold pitch_lo, pitch_hi in *. lra.
Qed.

(** ** What each operation leaves alone *)

Lemma _update_transition_pitch dt c :
  pitch (_update_transition dt c) = pitch c.
Proof.
  unfold _update_transition. destruct (Rlt_dec _ _); reflexivity.
Qed.

Lemma _update_orbit_pitch dx dy c :
  pitch (_update_orbit dx dy c)
  = clip (pitch c - dy * mouse_sensitivity (config c)) pitch_lo pitch_hi.
Proof. reflexivity. Qed.

Lemma _update_free_pitch dx dy c :
  pitch (_update_free dx dy c)
  = clip (pitch c - dy * mouse_sensitivity (config c)) pitch_lo pitch_hi.
Proof. reflexivity. Qed.

Lemma update_pitch dx dy dt c :
  pitch (update dx dy dt c)
  = clip (pitch c - dy * mouse_sensitivity (config c)) pitch_lo pitch_hi.
Proof.
  unfold update. rewrite _update_transition_pitch.
  destruct (mode c); reflexivity.
Qed.

Lemma update_up dx dy dt c : up (update dx dy dt c) = up c.
Proof.
  unfold update, _update_transition.
  destruct (mode c); destruct (Rlt_dec _ _); reflexivity.
Qed.

Lemma move_up f r u b c : up (move f r u b c) = up c.
Proof. unfold move. destruct (mode c); reflexivity. Qed.

Lemma zoom_up a c : up (zoom a c) = up c.
Proof.
  unfold zoom. destruct (mode c) eqn:E; [reflexivity | apply move_up].
Qed.

Lemma toggle_mode_up c : up (toggle_mode c) = up c.
Proof. unfold toggle_mode. destruct (mode c); reflexivity. Qed.

Lemma check_collision_up r c : up (check_collision r c) = up c.
Proof.
  unfold check_collision. destruct (Rlt_dec _ _); [|reflexivity].
  destruct c as [? ? ? ? ? ? ? m ? ? ? ? ? ? ? ?]. destruct m; reflexivity.
Qed.

Lemma step_up o c : up (step o c) = up c.
Proof.
  destruct o; simpl.
  - apply update_up.
  - apply move_up.
  - apply zoom_up.
  - apply toggle_mode_up.
  - apply check_collision_up.
Qed.

Lemma run_up ops : forall c, up (run ops c) = up c.
Proof.
  unfold run. induction ops as [|o ops IH]; intro c; simpl.
  - reflexivity.
  - rewrite IH. apply step_up.
Qed.

(** ** C5: the pitch clamp *)

(** C5. After the clamping step of an update, in orbit mode
    ([_update_orbit]), in free mode ([_update_free]) and at the end of
    [update] itself, the pitch lies strictly between -pi/2 and pi/2, for
    every pointer delta, elapsed time and prior camera state. *)
Theorem C5_pitch_strictly_inside (dx dy dt : R) (c : Camera) :
  (- (PI / 2) < pitch (_update_orbit dx dy c) < PI / 2) /\
  (- (PI / 2) < pitch (_update_free dx dy c) < PI / 2) /\
  (- (PI / 2) < pitch (update dx dy dt c) < PI / 2).
Proof.
  rewrite _update_orbit_pitch, _update_free_pitch, update_pitch.
  repeat split; apply clipped_pitch_strict.
Qed.

(** ** C6: the easing function *)

Lemma ease_0 : _ease_in_out_cubic 0 = 0.
Proof.
  unfold _ease_in_out_cubic. destruct (Rlt_dec 0 0.5); lra.
Qed.

Lemma ease_1 : _ease_in_out_cubic 1 = 1.
Proof.
  unfold _ease_in_out_cubic. destruct (Rlt_dec 1 0.5); lra.
Qed.

(** C6. The easing function is [4 t^3] below one half and
    [1 - (-2t+2)^3 / 2] from one half on; it maps 0 to 0, 1 to 1 and
    0.5 to 0.5 exactly. *)
Theorem C6_ease_in_out_cubic :
  (forall t, t < 0.5 -> _ease_in_out_cubic t = 4 * t ^ 3) /\
  (forall t, 0.5 <= t -> _ease_in_out_cubic t = 1 - (-2 * t + 2) ^ 3 / 2) /\
  _ease_in_out_cubic 0 = 0 /\
  _ease_in_out_cubic 1 = 1 /\
  _ease_in_out_cubic 0.5 = 0.5.
Proof.
  split; [|split; [|split; [|split]]].
  - intros t Ht. unfold _ease_in_out_cubic.
    destruct (Rlt_dec t 0.5); [ring | contradiction].
  - intros t Ht. unfold _ease_in_out_cubic.
    destruct (Rlt_dec t 0.5); [lra | reflexivity].
  - exact ease_0.
  - exact ease_1.
  - unfold _ease_in_out_cubic. destruct (Rlt_dec 0.5 0.5); lra.
Qed.

Lemma C6_ease_in_out_cubic_witness :
  _ease_in_out_cubic 0.25 = 4 * 0.25 ^ 3 /\
  _ease_in_out_cubic 0.75 = 1 - (-2 * 0.75 + 2) ^ 3 / 2.
Proof.
  split.
  - apply (proj1 C6_ease_in_out_cubic). lra.
  - apply (proj1 (proj2 C6_ease_in_out_cubic)). lra.
Defined.

(** ** C9: the up vector *)

(** C9. Each public operation leaves [up] as it was, so after any
    sequence of operations on a fresh camera [up] is still (0, 1, 0). *)
Theorem C9_up_unchanged (g : Config) (ops : list Op) (c : Camera) :
  (forall dx dy dt, up (update dx dy dt c) = up c) /\
  (forall f r u b, up (move f r u b c) = up c) /\
  (forall a, up (zoom a c) = up c) /\
  up (toggle_mode c) = up c /\
  (forall r, up (check_collision r c) = up c) /\
  up (run ops c) = up c /\
  up (run ops (init g)) = Vec.mk 0 1 0.
Proof.
  repeat split; intros.
  - apply update_up.
  - apply move_up.
  - apply zoom_up.
  - apply toggle_mode_up.
  - apply check_collision_up.
  - apply run_up.
  - rewrite run_up. reflexivity.
Qed.

(** ** C10: no collision, no change *)

Lemma check_collision_unchanged (r : R) (c : Camera) :
  r + 0.1 <= Vec.norm (position c) -> check_collision r c = c.
Proof.
  intro H. unfold check_collision.
  destruct (Rlt_dec _ _) as [Hlt | _]; [lra | reflexivity].
Qed.

(** C10. When the position is at least [planet_radius + 0.1] away from
    the origin, [check_collision] returns the camera state as it was. *)
Theorem C10_check_collision_far (r : R) (c : Camera) :
  r + 0.1 <= Vec.norm (position c) -> check_collision r c = c.
Proof. exact (check_collision_unchanged r c). Qed.

(** ** Geometry of the orbit sphere and of the forward vector *)

Lemma norm_z_axis (d : R) : 0 <= d -> Vec.norm (Vec.mk 0 0 d) = d.
Proof.
  intro H. unfold Vec.norm; simpl.
  replace (0 * 0 + 0 * 0 + d * d) with (d * d) by ring.
  apply sqrt_square. exact H.
Qed.

Lemma norm_zeros : Vec.norm Vec.zeros = 0.
Proof. apply (norm_z_axis 0). lra. Qed.

Lemma norm_spherical (d p a : R) :
  Vec.norm (Vec.mk (d * cos p * sin a) (d * sin p) (d * cos p * cos a))
  = Rabs d.
Proof.
  unfold Vec.norm; simpl.
  pose proof (sin2_cos2 p) as Hp. pose proof (sin2_cos2 a) as Ha.
  unfold Rsqr in Hp, Ha.
  replace (d * cos p * sin a * (d * cos p * sin a)
           + d * sin p * (d * sin p)
           + d * cos p * cos a * (d * cos p * cos a))
    with (Rsqr d * (cos p * cos p * (sin a * sin a + cos a * cos a)
                    + sin p * sin p))
    by (unfold Rsqr; ring).
  rewrite Ha.
  replace (cos p * cos p * 1 + sin p * sin p) with 1 by lra.
  rewrite Rmult_1_r. apply sqrt_Rsqr_abs.
Qed.

Lemma _update_position_norm (c : Camera) :
  Vec.norm (position (_update_position c)) = Rabs (distance c).
Proof. apply norm_spherical. Qed.

Lemma norm_scale (v : Vec.vec3) (s : R) :
  Vec.norm (Vec.scale v s) = Rabs s * Vec.norm v.
Proof.
  unfold Vec.norm, Vec.scale; simpl.
  replace (Vec.x v * s * (Vec.x v * s) + Vec.y v * s * (Vec.y v * s)
           + Vec.z v * s * (Vec.z v * s))
    with (Rsqr s * (Vec.x v * Vec.x v + Vec.y v * Vec.y v
                    + Vec.z v * Vec.z v))
    by (unfold Rsqr; ring).
  rewrite sqrt_mult_alt by apply Rle_0_sqr.
  rewrite sqrt_Rsqr_abs. reflexivity.
Qed.

Lemma div_as_scale (v : Vec.vec3) (s : R) : Vec.div v s = Vec.scale v (/ s).
Proof. reflexivity. Qed.

(** The vector that [move] normalises: with [up = (0, 1, 0)] its norm
    is [|cos pitch|]. *)
Lemma cross_forward_up_norm (c : Camera) :
  up c = Vec.mk 0 1 0 ->
  Vec.norm (Vec.cross (_get_forward_vector c) (up c)) = Rabs (cos (pitch c)).
Proof.
  intro Hup. rewrite Hup. unfold Vec.norm, Vec.cross, _get_forward_vector; simpl.
  pose proof (sin2_cos2 (yaw c)) as Ha. unfold Rsqr in Ha.
  set (cp := cos (pitch c)). set (sp := sin (pitch c)).
  replace ((sp * 0 - cp * cos (yaw c) * 1) * (sp * 0 - cp * cos (yaw c) * 1)
           + (cp * cos (yaw c) * 0 - cp * sin (yaw c) * 0)
             * (cp * cos (yaw c) * 0 - cp * sin (yaw c) * 0)
           + (cp * sin (yaw c) * 1 - sp * 0) * (cp * sin (yaw c) * 1 - sp * 0))
    with (Rsqr cp * (sin (yaw c) * sin (yaw c) + cos (yaw c) * cos (yaw c)))
    by (unfold Rsqr; ring).
  rewrite Ha, Rmult_1_r. apply sqrt_Rsqr_abs.
Qed.

Lemma cos_clamped_pitch_pos (p : R) :
  pitch_lo <= p <= pitch_hi -> 0 < cos p.
Proof.
  unfold pitch_lo, pitch_hi. intros [Hl Hh].
  apply cos_gt_0; lra.
Qed.

(** ** The pitch stays in the clamp range along every run *)

Lemma step_pitch_clamped o c : pitch_clamped c -> pitch_clamped (step o c).
Proof.
  unfold pitch_clamped. intro H. destruct o; simpl.
  - rewrite update_pitch. split.
    + apply clip_ge_lo, pitch_lo_le_hi.
    + apply clip_le_hi.
  - unfold move. destruct (mode c); exact H.
  - unfold zoom, move. destruct (mode c); exact H.
  - unfold toggle_mode. destruct (mode c); simpl.
    + exact H.
    + exact pitch_bounds_ordered.
  - unfold check_collision. destruct (Rlt_dec _ _); [|exact H].
    destruct c as [? ? ? ? ? ? ? m ? ? ? ? ? ? ? ?]. destruct m; exact H.
Qed.

Lemma run_pitch_clamped ops :
  forall c, pitch_clamped c -> pitch_clamped (run ops c).
Proof.
  unfold run. induction ops as [|o ops IH]; intros c H; simpl.
  - exact H.
  - apply IH, step_pitch_clamped, H.
Qed.

Lemma init_pitch_clamped g : pitch_clamped (init g).
Proof. exact pitch_bounds_ordered. Qed.

(** Along every run from a fresh camera the divisor of [move]'s
    normalisation is positive. *)
Lemma run_move_divisor_positive (g : Config) (ops : list Op) :
  let c := run ops (init g) in
  0 < Vec.norm (Vec.cross (_get_forward_vector c) (up c)).
Proof.
  intro c. assert (Hup : up c = Vec.mk 0 1 0) by (unfold c; rewrite run_up; reflexivity).
  rewrite (cross_forward_up_norm c Hup).
  apply Rabs_pos_lt, Rgt_not_eq, cos_clamped_pitch_pos.
  apply (run_pitch_clamped ops (init g) (init_pitch_clamped g)).
Qed.

(** ** Concrete runs of the viewer's default camera *)

Lemma clip_pitch_0 (v : R) : v = 0 -> clip v pitch_lo pitch_hi = 0.
Proof.
  intros ->. apply clip_inside. exact pitch_bounds_ordered.
Qed.

Lemma toggle_init : toggle_mode (init default_config) = s_free_armed.
Proof. reflexivity. Qed.

Lemma update_s_free_armed : update 0 0 1 s_free_armed = s_free_done.
Proof.
  unfold update, s_free_armed, cam; simpl mode; cbv iota.
  unfold _update_free; camera_simpl.
  unfold _update_transition; camera_simpl.
  destruct (Rlt_dec 0 1) as [_ | H]; [|exfalso; lra].
  replace (Rmin 1 (0 + 1 / 1)) with 1 by (rewrite Rmin_left; lra).
  rewrite ease_1. unfold s_free_done, cam.
  rewrite (clip_pitch_0 (0 - 0 * mouse_sensitivity default_config)) by (simpl; lra).
  f_equal; try (simpl; lra); apply vec3_eq; simpl; lra.
Qed.

Lemma update_s_free_done : update 0 0 0.5 s_free_done = s_free_looking.
Proof.
  unfold update, s_free_done, cam; simpl mode; cbv iota.
  unfold _update_free; camera_simpl.
  unfold _update_transition; camera_simpl.
  destruct (Rlt_dec 1 1) as [H | _]; [exfalso; lra|].
  rewrite (clip_pitch_0 (0 - 0 * mouse_sensitivity default_config)) by (simpl; lra).
  unfold _get_forward_vector; camera_simpl.
  replace (0 - 0 * mouse_sensitivity default_config) with 0 by (simpl; lra).
  rewrite cos_0, sin_0.
  unfold s_free_looking, cam.
  f_equal; apply vec3_eq; simpl; lra.
Qed.

Lemma move_s_free_looking : move 1 0 0 false s_free_looking = s_free_moved.
Proof.
  unfold move, s_free_looking, cam; simpl mode; cbv iota.
  camera_simpl. unfold _get_forward_vector; camera_simpl.
  rewrite cos_0, sin_0.
  replace (Vec.cross (Vec.mk (1 * 0) 0 (1 * 1)) (Vec.mk 0 1 0))
    with (Vec.mk (-1) 0 0) by (apply vec3_eq; simpl; ring).
  replace (Vec.norm (Vec.mk (-1) 0 0)) with 1.
  2:{ unfold Vec.norm; simpl.
      replace (-1 * -1 + 0 * 0 + 0 * 0) with 1 by ring.
      symmetry; apply sqrt_1. }
  unfold s_free_moved, cam.
  f_equal; apply vec3_eq; simpl; lra.
Qed.


Lemma run_s_free_looking :
  run [OpToggle; OpUpdate 0 0 1; OpUpdate 0 0 0.5] (init default_config)
  = s_free_looking.
Proof.
  unfold run; simpl.
  rewrite toggle_init, update_s_free_armed. apply update_s_free_done.
Qed.

Lemma run_s_free_moved :
  run [OpToggle; OpUpdate 0 0 1; OpUpdate 0 0 0.5; OpMove 1 0 0 false]
      (init default_config)
  = s_free_moved.
Proof.
  unfold run; simpl.
  rewrite toggle_init, update_s_free_armed, update_s_free_done.
  apply move_s_free_looking.
Qed.

(** ** C1: what [toggle_mode] records *)

(** From orbit to free the whole claim holds: the transition starts and
    ends at the pose before the toggle, with progress 0. *)
Lemma toggle_mode_orbit_to_free (c : Camera) :
  mode c = orbit ->
  let c' := toggle_mode c in
  mode c' = free /\
  start_position c' = position c /\ start_target c' = target c /\
  end_position c' = position c /\ end_target c' = target c /\
  transition_progress c' = 0.
Proof.
  intro H. unfold toggle_mode. rewrite H. repeat split.
Qed.

(** From free to orbit the orbit parameters are reset first, and the
    start position is read after the reset. *)
Lemma toggle_mode_free_to_orbit (c : Camera) :
  mode c = free ->
  let c' := toggle_mode c in
  let home := Vec.mk 0 0 (initial_distance (config c)) in
  mode c' = orbit /\
  distance c' = initial_distance (config c) /\ yaw c' = 0 /\ pitch c' = 0 /\
  position c' = home /\ target c' = target c /\
  start_position c' = home /\ start_target c' = target c /\
  end_position c' = home /\ end_target c' = Vec.zeros /\
  transition_progress c' = 0.
Proof.
  intro H. unfold toggle_mode. rewrite H. camera_simpl.
  unfold _update_position. camera_simpl. rewrite cos_0, sin_0.
  assert (E : Vec.mk (initial_distance (config c) * 1 * 0)
                     (initial_distance (config c) * 0)
                     (initial_distance (config c) * 1 * 1)
              = Vec.mk 0 0 (initial_distance (config c)))
    by (apply vec3_eq; simpl; ring).
  destruct c; simpl in *. rewrite E. repeat split.
Qed.

(** C1, evaluated where it fails.  The default camera is toggled to free
    mode, the transition completes, the camera takes one step forward to
    (0, 0, 30.1) and is toggled back.  The transition armed by this
    second toggle starts at (0, 0, 30), the reset orbit position, which
    is also its end position, and not at the pose before the toggle. *)
Theorem C1_toggle_free_to_orbit_start :
  let c := run [OpToggle; OpUpdate 0 0 1; OpUpdate 0 0 0.5;
                OpMove 1 0 0 false] (init default_config) in
  mode c = free /\
  position c = Vec.mk 0 0 30.1 /\
  start_position (toggle_mode c) = Vec.mk 0 0 30 /\
  end_position (toggle_mode c) = Vec.mk 0 0 30 /\
  start_position (toggle_mode c) <> position c /\
  start_target (toggle_mode c) = target c /\
  transition_progress (toggle_mode c) = 0.
Proof.
  intro c. unfold c. rewrite run_s_free_moved.
  destruct (toggle_mode_free_to_orbit s_free_moved eq_refl)
    as (_ & _ & _ & _ & _ & _ & Hsp & Hst & Hep & _ & Hpr).
  rewrite Hsp, Hep, Hst, Hpr. simpl.
  repeat split.
  intro E. apply (f_equal Vec.z) in E. simpl in E. lra.
Qed.

(** ** C3: updates after the transition has completed *)

Lemma _update_transition_done (dt : R) (c : Camera) :
  1 <= transition_progress c -> _update_transition dt c = c.
Proof.
  intro H. unfold _update_transition.
  destruct (Rlt_dec _ _); [lra | reflexivity].
Qed.

Lemma update_done (dx dy dt : R) (c : Camera) :
  1 <= transition_progress c ->
  update dx dy dt c
  = match mode c with
    | orbit => _update_orbit dx dy c
    | free => _update_free dx dy c
    end.
Proof.
  intro H. unfold update. apply _update_transition_done.
  destruct (mode c); exact H.
Qed.

Lemma update_still_consistent (dt : R) (c : Camera) :
  1 <= transition_progress c -> pitch_clamped c -> pose_consistent c ->
  update 0 0 dt c = c.
Proof.
  intros Hp Hc Hpose. rewrite update_done by exact Hp.
  unfold pitch_clamped, pose_consistent in *.
  destruct c as [g d yw p pos tgt u m sp bf pr du s1 s2 e1 e2].
  simpl in *.
  assert (Ey1 : yw + 0 * mouse_sensitivity g = yw) by ring.
  assert (Ey2 : yw - 0 * mouse_sensitivity g = yw) by ring.
  assert (Ep : clip (p - 0 * mouse_sensitivity g) pitch_lo pitch_hi = p).
  { replace (p - 0 * mouse_sensitivity g) with p by ring.
    apply clip_inside. exact Hc. }
  destruct m.
  - unfold _update_orbit, _update_position; camera_simpl.
    rewrite Ey1, Ep, <- Hpose. reflexivity.
  - unfold _update_free, _get_forward_vector in *; camera_simpl.
    rewrite Ey2, Ep, <- Hpose. reflexivity.
Qed.




(** The fresh camera is a state in which the amended C3 applies in
    full: its pitch is in range and its pose is the orbit formula. *)
Lemma init_pose_consistent (g : Config) : pose_consistent (init g).
Proof.
  unfold pose_consistent; simpl. rewrite cos_0, sin_0.
  apply vec3_eq; simpl; ring.
Qed.


Lemma C10_check_collision_far_witness :
  10 + 0.1 <= Vec.norm (position (init default_config)) /\
  check_collision 10 (init default_config) = init default_config.
Proof.
  assert (H : 10 + 0.1 <= Vec.norm (position (init default_config))).
  { simpl. rewrite norm_z_axis; lra. }
  split; [exact H |].
  apply (C10_check_collision_far 10 (init default_config) H).
Defined.

(** ** What [check_collision] does inside the boundary sphere *)

(** For a position off the origin and closer than [planet_radius + 0.1],
    the new position is the old one scaled by a positive factor (the
    direction is kept), its norm is [planet_radius + 0.1], the orbit
    distance follows, and target and mode stay. *)
Lemma check_collision_clamps (r : R) (c : Camera) :
  0 < Vec.norm (position c) ->
  Vec.norm (position c) < r + 0.1 ->
  let c' := check_collision r c in
  let k := (r + 0.1) / Vec.norm (position c) in
  0 < k /\
  position c' = Vec.scale (position c) k /\
  Vec.norm (position c') = r + 0.1 /\
  distance c' = match mode c with
                | orbit => r + 0.1
                | free => distance c
                end /\
  target c' = target c /\ mode c' = mode c.
Proof.
  intros Hn Hlt c' k.
  assert (Hk : 0 < k).
  { unfold k. apply Rdiv_lt_0_compat; lra. }
  assert (Hpos : position c' = Vec.scale (position c) k).
  { unfold c', check_collision.
    destruct (Rlt_dec _ _) as [_ | H]; [|exfalso; lra].
    destruct c as [? ? ? ? pos ? ? m ? ? ? ? ? ? ? ?]; destruct m; simpl in *;
      apply vec3_eq; simpl; unfold k, Rdiv; ring. }
  split; [exact Hk | split; [exact Hpos |]].
  split.
  - rewrite Hpos, norm_scale, Rabs_pos_eq by lra.
    unfold k. field. lra.
  - unfold c', check_collision.
    destruct (Rlt_dec _ _) as [_ | H]; [|exfalso; lra].
    destruct c as [? ? ? ? pos ? ? m ? ? ? ? ? ? ? ?]; destruct m; simpl;
      repeat split.
Qed.

(** ** C2: the orbit-mode invariant *)

Lemma _update_transition_running (dt : R) (c : Camera) :
  transition_progress c < 1 ->
  let p := Rmin 1 (transition_progress c + dt / transition_duration c) in
  let t := _ease_in_out_cubic p in
  transition_progress (_update_transition dt c) = p /\
  position (_update_transition dt c)
  = Vec.add (Vec.scale (start_position c) (1 - t))
            (Vec.scale (end_position c) t) /\
  target (_update_transition dt c)
  = Vec.add (Vec.scale (start_target c) (1 - t))
            (Vec.scale (end_target c) t) /\
  mode (_update_transition dt c) = mode c /\
  distance (_update_transition dt c) = distance c /\
  end_target (_update_transition dt c) = end_target c.
Proof.
  intros H p t. unfold _update_transition.
  destruct (Rlt_dec _ _) as [_ | H']; [|exfalso; lra].
  repeat split.
Qed.

(** C2, where it fails.  The default camera is toggled to free mode,
    the transition completes, and one more frame puts the target at
    (0, 0, 31).  Toggling back gives mode 'orbit' with that target
    still in place; and 0.1 s into the transition [update] has brought
    the target to (0, 0, 30.876) only.  Moreover, for a distance of -1
    the position that [update] computes in orbit mode has norm 1. *)
Lemma C2_counterexample :
  let c := toggle_mode
             (run [OpToggle; OpUpdate 0 0 1; OpUpdate 0 0 0.5]
                  (init default_config)) in
  let n := update 0 0 0 (set_distance (-1) (init default_config)) in
  (mode c = orbit /\ target c <> Vec.zeros) /\
  (mode (update 0 0 0.1 c) = orbit /\
   target (update 0 0 0.1 c) <> Vec.zeros) /\
  (mode n = orbit /\ Vec.norm (position n) <> distance n).
Proof.
  intros c n. unfold c. rewrite run_s_free_looking.
  destruct (toggle_mode_free_to_orbit s_free_looking eq_refl)
    as (Hm & _ & _ & _ & _ & Ht & _ & Hst & _ & Het & Hpr).
  split; [split; [exact Hm |] | split].
  - rewrite Ht. simpl. intro E. apply (f_equal Vec.z) in E. simpl in E. lra.
  - unfold update. rewrite Hm.
    set (c1 := _update_orbit 0 0 (toggle_mode s_free_looking)).
    assert (Hlt : transition_progress c1 < 1).
    { unfold c1; simpl. lra. }
    destruct (_update_transition_running 0.1 c1 Hlt)
      as (_ & _ & Htgt & Hmode & _).
    split; [rewrite Hmode; reflexivity |].
    rewrite Htgt.
    assert (Hease : _ease_in_out_cubic
                      (Rmin 1 (transition_progress c1
                               + 0.1 / transition_duration c1)) = 0.004).
    { unfold c1; simpl.
      replace (Rmin 1 (0 + 0.1 / 1)) with 0.1 by (rewrite Rmin_right; lra).
      unfold _ease_in_out_cubic. destruct (Rlt_dec 0.1 0.5); lra. }
    rewrite Hease. unfold c1; simpl.
    intro E. apply (f_equal Vec.z) in E. simpl in E. lra.
  - assert (Hp : 1 <= transition_progress
                        (set_distance (-1) (init default_config)))
      by (simpl; lra).
    unfold n. rewrite update_done by exact Hp. simpl mode. cbv iota.
    split; [reflexivity |].
    unfold _update_orbit. rewrite _update_position_norm. simpl.
    rewrite Rabs_left by lra. lra.
Qed.

(** *** The target along runs from a fresh camera *)

Lemma lerp_at_1 (a b : Vec.vec3) :
  Vec.add (Vec.scale a (1 - 1)) (Vec.scale b 1) = b.
Proof. apply vec3_eq; simpl; ring. Qed.

Lemma update_transition_inv (dx dy dt : R) (c : Camera) :
  transition_inv c -> transition_inv (update dx dy dt c).
Proof.
  intros [Hle Ho]. unfold update.
  set (c1 := match mode c with
             | orbit => _update_orbit dx dy c
             | free => _update_free dx dy c
             end).
  assert (Hc1 : mode c1 = mode c /\ end_target c1 = end_target c /\
                transition_progress c1 = transition_progress c /\
                (mode c = orbit -> target c1 = target c)).
  { unfold c1. destruct (mode c) eqn:E.
    - destruct c; simpl in *. repeat split. exact E.
    - destruct c; simpl in *. repeat split; [exact E | discriminate]. }
  destruct Hc1 as (Hm1 & He1 & Hp1 & Ht1).
  change (transition_inv (_update_transition dt c1)). unfold transition_inv.
  destruct (Rlt_dec (transition_progress c1) 1) as [Hlt | Hge].
  - destruct (_update_transition_running dt c1 Hlt)
      as (Hp' & _ & Ht' & Hm' & _ & He').
    rewrite Hp', Ht', Hm', He', Hm1, He1.
    split; [apply Rmin_l |].
    intro Hm. destruct (Ho Hm) as [He _].
    split; [exact He |]. intro H1.
    assert (E : Rmin 1 (transition_progress c1 + dt / transition_duration c1)
                = 1) by (apply Rle_antisym; [apply Rmin_l | exact H1]).
    rewrite E, ease_1, He. apply lerp_at_1.
  - rewrite _update_transition_done by lra.
    split; [rewrite Hp1; exact Hle |].
    intro Hm. rewrite Hm1 in Hm. destruct (Ho Hm) as [He Ht].
    rewrite He1, Hp1, (Ht1 Hm). split; assumption.
Qed.

Lemma step_transition_inv (o : Op) (c : Camera) :
  transition_inv c -> transition_inv (step o c).
Proof.
  intro H. destruct o; simpl.
  1: apply update_transition_inv; exact H.
  all: unfold transition_inv in *; destruct H as [Hle Ho];
    destruct c as [g d yw p pos tgt u m sp bf pr du s1 s2 e1 e2];
    simpl in *.
  - unfold move; simpl. destruct m; simpl;
      (split; [exact Hle | first [exact Ho | discriminate]]).
  - unfold zoom, move; simpl. destruct m; simpl;
      (split; [exact Hle | first [exact Ho | discriminate]]).
  - unfold toggle_mode; simpl. destruct m; simpl.
    + split; [lra | discriminate].
    + split; [lra |]. intros _. split; [reflexivity | intro; lra].
  - unfold check_collision; simpl.
    destruct (Rlt_dec _ _); destruct m; simpl;
      (split; [exact Hle | exact Ho]).
Qed.

Lemma update_orbit_settled (dx dy dt : R) (c : Camera) :
  mode c = orbit -> 1 <= transition_progress c ->
  let c' := update dx dy dt c in
  mode c' = orbit /\ distance c' = distance c /\ target c' = target c /\
  Vec.norm (position c') = Rabs (distance c).
Proof.
  intros Hm Hp c'. unfold c'. rewrite update_done by exact Hp. rewrite Hm.
  unfold _update_orbit.
  rewrite _update_position_norm.
  destruct c; simpl in *. repeat split. exact Hm.
Qed.

Lemma zoom_orbit (a : R) (c : Camera) :
  mode c = orbit ->
  let c' := zoom a c in
  mode c' = orbit /\ target c' = target c /\
  distance c' = clip (distance c - a * zoom_speed (config c))
                     (planet_radius (config c) + 0.1)
                     (max_distance (config c)) /\
  Vec.norm (position c') = Rabs (distance c').
Proof.
  intros Hm c'. unfold c', zoom. rewrite Hm.
  rewrite _update_position_norm.
  destruct c; simpl in *. repeat split. exact Hm.
Qed.

Lemma clip_nonneg (v lo hi : R) : 0 <= lo -> 0 <= hi -> 0 <= clip v lo hi.
Proof.
  intros Hl Hh. unfold clip. apply Rmin_glb; [|exact Hh].
  apply Rle_trans with lo; [exact Hl | apply Rmax_r].
Qed.

(** C2, amended.  Take a camera in orbit mode with its target at the
    origin.  After [update] the orbit invariant holds (mode 'orbit',
    norm of the position equal to the distance, target at the origin)
    when no transition is in flight ([transition_progress >= 1]) and
    the distance is not negative; after [zoom] it holds when
    [planet_radius + 0.1] and [max_distance] are not negative; after
    [check_collision] it holds when the norm of the position equals a
    positive distance before the call.  After [toggle_mode] from free
    mode the mode is 'orbit' and the norm of the position is the
    distance, the initial one; the target is the one before the
    toggle. *)
Theorem C2_orbit_invariant :
  (forall c dx dy dt,
     mode c = orbit -> target c = Vec.zeros ->
     1 <= transition_progress c -> 0 <= distance c ->
     orbit_invariant (update dx dy dt c)) /\
  (forall c a,
     mode c = orbit -> target c = Vec.zeros ->
     0 <= planet_radius (config c) + 0.1 -> 0 <= max_distance (config c) ->
     orbit_invariant (zoom a c)) /\
  (forall c r,
     mode c = orbit -> target c = Vec.zeros ->
     Vec.norm (position c) = distance c -> 0 < distance c ->
     orbit_invariant (check_collision r c)) /\
  (forall c,
     mode c = free -> 0 <= initial_distance (config c) ->
     let c' := toggle_mode c in
     mode c' = orbit /\ Vec.norm (position c') = distance c' /\
     distance c' = initial_distance (config c) /\ target c' = target c).
Proof.
  unfold orbit_invariant. split; [|split; [|split]].
  - intros c dx dy dt Hm Ht Hp Hd.
    destruct (update_orbit_settled dx dy dt c Hm Hp) as (Hm' & Hd' & Ht' & Hn).
    rewrite Hd', Ht', Hn. repeat split; try assumption.
    apply Rabs_pos_eq. exact Hd.
  - intros c a Hm Ht Hr Hmax.
    destruct (zoom_orbit a c Hm) as (Hm' & Ht' & Hd' & Hn).
    rewrite Ht', Hn. repeat split; try assumption.
    apply Rabs_pos_eq. rewrite Hd'. apply clip_nonneg; assumption.
  - intros c r Hm Ht Hn Hd.
    destruct (Rlt_dec (Vec.norm (position c)) (r + 0.1)) as [Hlt | Hge].
    + assert (Hn0 : 0 < Vec.norm (position c)) by lra.
      destruct (check_collision_clamps r c Hn0 Hlt)
        as (_ & _ & Hn' & Hd' & Ht' & Hm').
      rewrite Hm in Hd'. rewrite Hn', Hd', Ht', Hm'.
      repeat split; assumption.
    + rewrite check_collision_unchanged by lra. repeat split; assumption.
  - intros c Hm Hd.
    destruct (toggle_mode_free_to_orbit c Hm)
      as (Hm' & Hd' & _ & _ & Hpos & Ht' & _).
    rewrite Hpos, Hd'. repeat split; try assumption.
    apply norm_z_axis. exact Hd.
Qed.

Lemma C2_orbit_invariant_witness :
  let c := init default_config in
  let f := toggle_mode (init default_config) in
  (mode c = orbit /\ target c = Vec.zeros /\ 1 <= transition_progress c /\
   0 < distance c /\ Vec.norm (position c) = distance c /\
   0 <= planet_radius (config c) + 0.1 /\ 0 <= max_distance (config c)) /\
  orbit_invariant (update 3 4 0.5 c) /\
  orbit_invariant (zoom 1 c) /\
  orbit_invariant (check_collision 40 c) /\
  (mode f = free /\ 0 <= initial_distance (config f)) /\
  (mode (toggle_mode f) = orbit /\
   Vec.norm (position (toggle_mode f)) = distance (toggle_mode f) /\
   distance (toggle_mode f) = initial_distance (config f) /\
   target (toggle_mode f) = target f).
Proof.
  intros c f.
  assert (Hn : Vec.norm (position c) = distance c).
  { simpl. apply norm_z_axis. lra. }
  assert (H1 : 1 <= transition_progress c) by (simpl; lra).
  assert (H2 : 0 < distance c) by (simpl; lra).
  assert (H3 : 0 <= planet_radius (config c) + 0.1) by (simpl; lra).
  assert (H4 : 0 <= max_distance (config c)) by (simpl; lra).
  assert (H5 : 0 <= initial_distance (config f)) by (simpl; lra).
  destruct C2_orbit_invariant as (Hu & Hz & Hc & Ht).
  split; [repeat split; assumption |].
  split; [apply (Hu c 3 4 0.5 eq_refl eq_refl H1); lra |].
  split; [apply (Hz c 1 eq_refl eq_refl H3 H4) |].
  split; [apply (Hc c 40 eq_refl eq_refl Hn H2) |].
  split; [split; [reflexivity | exact H5] |].
  apply (Ht f eq_refl H5).
Defined.

(** ** C4: the camera at the centre of the planet *)

Lemma small_planet_config_valid : valid_config small_planet_config.
Proof.
  unfold valid_config; simpl. repeat split; try lra; lia.
Qed.

Lemma zoom_init_small : zoom 58 (init small_planet_config) = t_zoomed.
Proof.
  unfold zoom; simpl mode; cbv iota.
  unfold _update_position; camera_simpl. simpl.
  assert (E : clip (30 - 58 * 0.5) (1 + 0.1) 50 = 1.1).
  { unfold clip. rewrite Rmax_right by lra. rewrite Rmin_left; lra. }
  rewrite E, cos_0, sin_0. unfold t_zoomed, cam.
  f_equal; apply vec3_eq; simpl; lra.
Qed.

Lemma toggle_t_zoomed : toggle_mode t_zoomed = t_free 0.
Proof. reflexivity. Qed.

Lemma update_t_free_0 : update 0 0 1 (t_free 0) = t_free 1.
Proof.
  unfold update, t_free, cam; simpl mode; cbv iota.
  unfold _update_free; camera_simpl.
  unfold _update_transition; camera_simpl.
  destruct (Rlt_dec 0 1) as [_ | H]; [|exfalso; lra].
  replace (Rmin 1 (0 + 1 / 1)) with 1 by (rewrite Rmin_left; lra).
  rewrite ease_1.
  rewrite (clip_pitch_0 (0 - 0 * mouse_sensitivity small_planet_config))
    by (simpl; lra).
  f_equal; try (simpl; lra); apply vec3_eq; simpl; lra.
Qed.

Lemma check_t_free_1 : check_collision 1 (t_free 1) = t_free 1.
Proof.
  apply check_collision_unchanged. simpl. rewrite norm_z_axis; lra.
Qed.

Lemma move_t_free_1 :
  move (-1) 0 0 true (t_free 1) = t_centre (Vec.mk 0 0 (-1.1)).
Proof.
  unfold move, t_free, cam; simpl mode; cbv iota.
  camera_simpl. unfold _get_forward_vector; camera_simpl.
  rewrite cos_0, sin_0.
  replace (Vec.cross (Vec.mk (1 * 0) 0 (1 * 1)) (Vec.mk 0 1 0))
    with (Vec.mk (-1) 0 0) by (apply vec3_eq; simpl; ring).
  replace (Vec.norm (Vec.mk (-1) 0 0)) with 1.
  2:{ unfold Vec.norm; simpl.
      replace (-1 * -1 + 0 * 0 + 0 * 0) with 1 by ring.
      symmetry; apply sqrt_1. }
  unfold t_centre, cam.
  f_equal; apply vec3_eq; simpl; lra.
Qed.

Lemma update_t_centre :
  update 0 0 0.016 (t_centre (Vec.mk 0 0 (-1.1))) = t_centre (Vec.mk 0 0 1).
Proof.
  unfold update, t_centre, cam; simpl mode; cbv iota.
  unfold _update_free; camera_simpl.
  unfold _update_transition; camera_simpl.
  destruct (Rlt_dec 1 1) as [H | _]; [exfalso; lra|].
  rewrite (clip_pitch_0 (0 - 0 * mouse_sensitivity small_planet_config))
    by (simpl; lra).
  unfold _get_forward_vector; camera_simpl.
  replace (0 - 0 * mouse_sensitivity small_planet_config) with 0
    by (simpl; lra).
  rewrite cos_0, sin_0.
  f_equal; apply vec3_eq; simpl; lra.
Qed.

Lemma run_t_centre :
  run [OpZoom 58; OpToggle; OpUpdate 0 0 1; OpCheck 1;
       OpMove (-1) 0 0 true; OpUpdate 0 0 0.016]
      (init small_planet_config)
  = t_centre (Vec.mk 0 0 1).
Proof.
  unfold run; simpl.
  rewrite zoom_init_small, toggle_t_zoomed, update_t_free_0, check_t_free_1,
    move_t_free_1.
  apply update_t_centre.
Qed.

(** C4, evaluated where it fails.  With the smallest planet (radius 1)
    the camera is zoomed onto the boundary sphere, toggled to free mode
    and, once the transition is over, takes one boosted step backwards,
    which lands it on the origin.  The next [check_collision(1)] finds a
    distance to the centre of 0, less than 1.1, and divides the position
    by it: the position it stores does not have norm 1.1 (on [R] the
    zero vector divided by zero and scaled is the zero vector; numpy
    stores nan in each component). *)
Theorem C4_check_collision_at_centre :
  let c := run [OpZoom 58; OpToggle; OpUpdate 0 0 1; OpCheck 1;
                OpMove (-1) 0 0 true; OpUpdate 0 0 0.016]
               (init small_planet_config) in
  valid_config (config c) /\
  position c = Vec.zeros /\
  Vec.norm (position c) = 0 /\
  Vec.norm (position c) < planet_radius (config c) + 0.1 /\
  Vec.norm (position (check_collision (planet_radius (config c)) c))
  <> planet_radius (config c) + 0.1.
Proof.
  intro c. unfold c. rewrite run_t_centre.
  split; [exact small_planet_config_valid |].
  split; [reflexivity |].
  assert (Hn : Vec.norm (position (t_centre (Vec.mk 0 0 1))) = 0)
    by exact norm_zeros.
  split; [exact Hn |].
  split; [rewrite Hn; simpl; lra |].
  unfold check_collision. rewrite Hn.
  destruct (Rlt_dec 0 _) as [_ | H]; [|exfalso; apply H; simpl; lra].
  simpl.
  replace (Vec.scale (Vec.div Vec.zeros 0) (1 + 0.1)) with Vec.zeros
    by (apply vec3_eq; simpl; unfold Rdiv; ring).
  rewrite norm_zeros. lra.
Qed.

(** ** C7: the divisions of the camera operations *)

Lemma partial_update_transition (dt : R) (c : Camera) :
  transition_duration c <> 0 ->
  Partial._update_transition dt c = Some (_update_transition dt c).
Proof.
  intro H. unfold Partial._update_transition, _update_transition.
  destruct (Rlt_dec _ _); [|reflexivity].
  destruct (Req_dec_T _ _); [contradiction | reflexivity].
Qed.

Lemma partial_update (dx dy dt : R) (c : Camera) :
  transition_duration c <> 0 ->
  Partial.update dx dy dt c = Some (update dx dy dt c).
Proof.
  intro H. unfold Partial.update, update.
  apply partial_update_transition.
  destruct (mode c); exact H.
Qed.

Lemma partial_move (f r u : R) (b : bool) (c : Camera) :
  Vec.norm (Vec.cross (_get_forward_vector c) (up c)) <> 0 ->
  Partial.move f r u b c = Some (move f r u b c).
Proof.
  intro H. unfold Partial.move, move, Partial.div.
  destruct (mode c); [reflexivity |]. cbv zeta.
  destruct (Req_dec_T _ _); [contradiction | reflexivity].
Qed.

Lemma partial_zoom (a : R) (c : Camera) :
  Vec.norm (Vec.cross (_get_forward_vector c) (up c)) <> 0 ->
  Partial.zoom a c = Some (zoom a c).
Proof.
  intro H. unfold Partial.zoom, zoom.
  destruct (mode c); [reflexivity | apply partial_move; exact H].
Qed.

(** [check_collision] divides by zero exactly when it finds the camera
    at a distance of 0 from the centre and inside the boundary
    sphere. *)
Lemma partial_check_collision_none (r : R) (c : Camera) :
  Partial.check_collision r c = None <->
  Vec.norm (position c) = 0 /\ Vec.norm (position c) < r + 0.1.
Proof.
  unfold Partial.check_collision, Partial.div. cbv zeta.
  destruct (Rlt_dec _ _) as [Hlt | Hge].
  - destruct (Req_dec_T _ _) as [E | N].
    + split; [intros _; split; assumption | reflexivity].
    + split; [discriminate | intros [E _]; contradiction].
  - split; [discriminate | intros [_ Hlt]; contradiction].
Qed.

Lemma partial_check_collision (r : R) (c : Camera) :
  Vec.norm (position c) <> 0 \/ r + 0.1 <= Vec.norm (position c) ->
  Partial.check_collision r c = Some (check_collision r c).
Proof.
  intro H. unfold Partial.check_collision, check_collision, Partial.div.
  cbv zeta.
  destruct (Rlt_dec _ _) as [Hlt | Hge]; [|reflexivity].
  destruct (Req_dec_T _ _) as [E | N]; [|reflexivity].
  exfalso. destruct H as [H | H]; [contradiction | lra].
Qed.

(** A checked operation that yields a state yields the state of the
    operation itself. *)
Lemma partial_step_cases (o : Op) (c : Camera) :
  Partial.step o c = None \/ Partial.step o c = Some (step o c).
Proof.
  destruct o as [dx dy dt | f r u b | a | | r]; simpl.
  - unfold Partial.update, update, Partial._update_transition,
      _update_transition.
    destruct (Rlt_dec _ _); [|right; reflexivity].
    destruct (Req_dec_T _ _); [left | right]; reflexivity.
  - unfold Partial.move, move, Partial.div.
    destruct (mode c); [right; reflexivity |]. cbv zeta.
    destruct (Req_dec_T _ _); [left | right]; reflexivity.
  - unfold Partial.zoom, zoom, Partial.move, move, Partial.div.
    destruct (mode c); [right; reflexivity |]. cbv zeta.
    destruct (Req_dec_T _ _); [left | right]; reflexivity.
  - right; reflexivity.
  - unfold Partial.check_collision, check_collision, Partial.div. cbv zeta.
    destruct (Rlt_dec _ _); [|right; reflexivity].
    destruct (Req_dec_T _ _); [left | right]; reflexivity.
Qed.

Lemma partial_step_agrees (o : Op) (c c' : Camera) :
  Partial.step o c = Some c' -> c' = step o c.
Proof.
  intro H. destruct (partial_step_cases o c) as [E | E];
    rewrite E in H; [discriminate | inversion H; reflexivity].
Qed.

Lemma partial_run_agrees (ops : list Op) :
  forall c c', Partial.run ops c = Some c' -> c' = run ops c.
Proof.
  induction ops as [|o ops IH]; intros c c' H; simpl in H.
  - inversion H. reflexivity.
  - destruct (Partial.step o c) as [c1 |] eqn:E; [|discriminate].
    apply partial_step_agrees in E. subst c1.
    unfold run; simpl. apply IH. exact H.
Qed.

Lemma step_duration (o : Op) (c : Camera) :
  transition_duration (step o c) = transition_duration c.
Proof.
  destruct o; simpl.
  - unfold update, _update_transition.
    destruct (mode c); destruct (Rlt_dec _ _); reflexivity.
  - unfold move. destruct (mode c); reflexivity.
  - unfold zoom, move. destruct (mode c); reflexivity.
  - unfold toggle_mode. destruct (mode c); reflexivity.
  - unfold check_collision. destruct (Rlt_dec _ _); [|reflexivity].
    destruct c as [? ? ? ? ? ? ? m ? ? ? ? ? ? ? ?]. destruct m; reflexivity.
Qed.

Lemma run_duration (ops : list Op) :
  forall c, transition_duration (run ops c) = transition_duration c.
Proof.
  unfold run. induction ops as [|o ops IH]; intro c; simpl.
  - reflexivity.
  - rewrite IH. apply step_duration.
Qed.

Lemma move_divisor_positive (c : Camera) :
  up c = Vec.mk 0 1 0 -> pitch_clamped c ->
  0 < Vec.norm (Vec.cross (_get_forward_vector c) (up c)) /\
  Vec.norm (Vec.cross (_get_forward_vector c) (up c)) = cos (pitch c).
Proof.
  intros Hup Hp. pose proof (cos_clamped_pitch_pos _ Hp) as Hcos.
  rewrite (cross_forward_up_norm c Hup), Rabs_pos_eq by lra.
  split; [exact Hcos | reflexivity].
Qed.

(** With [up] and the duration as [__init__] set them and the pitch in
    the clamp range, an operation divides by zero only when it is a
    [check_collision] that finds the camera at distance 0. *)
Lemma partial_step_none (o : Op) (c : Camera) :
  up c = Vec.mk 0 1 0 -> pitch_clamped c -> transition_duration c <> 0 ->
  (Partial.step o c = None <->
   exists r, o = OpCheck r /\
             Vec.norm (position c) = 0 /\ Vec.norm (position c) < r + 0.1).
Proof.
  intros Hup Hp Hd.
  assert (Hn : Vec.norm (Vec.cross (_get_forward_vector c) (up c)) <> 0).
  { apply Rgt_not_eq. apply (move_divisor_positive c Hup Hp). }
  destruct o as [dx dy dt | f r u b | a | | r]; simpl.
  - rewrite (partial_update _ _ _ _ Hd).
    split; [discriminate | intros (r & E & _); discriminate].
  - rewrite (partial_move _ _ _ _ _ Hn).
    split; [discriminate | intros (r0 & E & _); discriminate].
  - rewrite (partial_zoom _ _ Hn).
    split; [discriminate | intros (r & E & _); discriminate].
  - split; [discriminate | intros (r & E & _); discriminate].
  - rewrite partial_check_collision_none. split.
    + intro H. exists r. split; [reflexivity | exact H].
    + intros (r0 & E & H). inversion E. subst r0. exact H.
Qed.

Lemma partial_step_some (o : Op) (c : Camera) :
  up c = Vec.mk 0 1 0 -> pitch_clamped c -> transition_duration c <> 0 ->
  (forall r, o = OpCheck r ->
     Vec.norm (position c) <> 0 \/ r + 0.1 <= Vec.norm (position c)) ->
  Partial.step o c = Some (step o c).
Proof.
  intros Hup Hp Hd Hc.
  destruct (partial_step_cases o c) as [E | E]; [|exact E].
  exfalso. apply (partial_step_none o c Hup Hp Hd) in E.
  destruct E as (r & Eo & H0 & Hlt).
  destruct (Hc r Eo) as [H | H]; [contradiction | lra].
Qed.

(** The run that puts the camera on the origin divides by no zero. *)
Lemma partial_run_t_centre :
  Partial.run [OpZoom 58; OpToggle; OpUpdate 0 0 1; OpCheck 1;
               OpMove (-1) 0 0 true; OpUpdate 0 0 0.016]
              (init small_planet_config)
  = Some (t_centre (Vec.mk 0 0 1)).
Proof.
  assert (Hd : (1 : R) <> 0) by lra.
  cbn [Partial.run].
  rewrite (partial_step_some (OpZoom 58) (init small_planet_config)
             eq_refl pitch_bounds_ordered Hd)
    by (intros r E; discriminate E).
  cbn [step]. rewrite zoom_init_small.
  rewrite (partial_step_some OpToggle t_zoomed
             eq_refl pitch_bounds_ordered Hd)
    by (intros r E; discriminate E).
  cbn [step]. rewrite toggle_t_zoomed.
  rewrite (partial_step_some (OpUpdate 0 0 1) (t_free 0)
             eq_refl pitch_bounds_ordered Hd)
    by (intros r E; discriminate E).
  cbn [step]. rewrite update_t_free_0.
  rewrite (partial_step_some (OpCheck 1) (t_free 1)
             eq_refl pitch_bounds_ordered Hd).
  2:{ intros r E. inversion E. subst r. right. simpl position.
      rewrite norm_z_axis; lra. }
  cbn [step]. rewrite check_t_free_1.
  rewrite (partial_step_some (OpMove (-1) 0 0 true) (t_free 1)
             eq_refl pitch_bounds_ordered Hd)
    by (intros r E; discriminate E).
  cbn [step]. rewrite move_t_free_1.
  rewrite (partial_step_some (OpUpdate 0 0 0.016)
             (t_centre (Vec.mk 0 0 (-1.1)))
             eq_refl pitch_bounds_ordered Hd)
    by (intros r E; discriminate E).
  cbn [step]. rewrite update_t_centre. reflexivity.
Qed.

(** C7.  The part on [move] holds: with [up = (0, 1, 0)] and the pitch
    within [-pi/2 + 0.1, pi/2 - 0.1] the forward vector is not parallel
    to [up], the norm that [move] divides by is [cos pitch > 0], the
    normalised right vector has norm one, [move] divides by no zero,
    and a step to the right moves the camera by a vector of length
    [|right * speed|].  After every run from a fresh camera that has divided by no
    zero, [update], [move], [zoom] and [toggle_mode] divide by no zero
    either; [check_collision] does exactly when it finds the camera at
    distance 0 from the centre, inside the boundary sphere.  That case
    occurs under a configuration within the field bounds: the run that
    zooms onto the smallest planet, toggles to free mode and steps back
    onto the origin divides by no zero, and the [check_collision] of
    the planet's radius that follows it divides by zero, so "camera
    operations never fail under valid input" does not hold of the
    code. *)
Theorem C7_camera_operations_defined :
  (forall (c : Camera) (f r u : R) (b : bool),
     up c = Vec.mk 0 1 0 ->
     pitch_lo <= pitch c <= pitch_hi ->
     let right_vec := Vec.cross (_get_forward_vector c) (up c) in
     let unit_right := Vec.div right_vec (Vec.norm right_vec) in
     let speed := speed c * (if b then boost_factor c else 1) in
     right_vec <> Vec.zeros /\
     0 < Vec.norm right_vec /\
     Vec.norm right_vec = cos (pitch c) /\
     Vec.norm unit_right = 1 /\
     Partial.move f r u b c = Some (move f r u b c) /\
     (mode c = free ->
      position (move 0 r 0 b c)
      = Vec.add (position c) (Vec.scale unit_right (r * speed)) /\
      Vec.norm (Vec.scale unit_right (r * speed)) = Rabs (r * speed))) /\
  (forall (g : Config) (ops : list Op) (c : Camera) (o : Op),
     Partial.run ops (init g) = Some c ->
     (Partial.step o c = None <->
      exists r, o = OpCheck r /\
                Vec.norm (position c) = 0 /\
                Vec.norm (position c) < r + 0.1)) /\
  (let ops := [OpZoom 58; OpToggle; OpUpdate 0 0 1; OpCheck 1;
               OpMove (-1) 0 0 true; OpUpdate 0 0 0.016] in
   exists c,
     Partial.run ops (init small_planet_config) = Some c /\
     valid_config (config c) /\
     position c = Vec.zeros /\
     Partial.check_collision (planet_radius (config c)) c = None).
Proof.
  split; [|split].
  - intros c f r u b Hup Hp right_vec unit_right sp.
    destruct (move_divisor_positive c Hup Hp) as [Hpos Hn].
    fold right_vec in Hpos, Hn.
    assert (Hunit : Vec.norm unit_right = 1).
    { unfold unit_right. rewrite div_as_scale, norm_scale, Hn.
      rewrite Rabs_pos_eq
        by (left; apply Rinv_0_lt_compat; rewrite <- Hn; exact Hpos).
      field. rewrite <- Hn. lra. }
    split; [|split; [exact Hpos | split; [exact Hn | split; [exact Hunit |]]]].
    + intro E. rewrite E, norm_zeros in Hpos. lra.
    + split; [apply partial_move; apply Rgt_not_eq; exact Hpos |].
      intro Hm. split.
      * unfold move. rewrite Hm. simpl.
        apply vec3_eq; simpl; unfold sp, right_vec, Rdiv; ring.
      * rewrite norm_scale, Hunit. ring.
  - intros g ops c o H. apply partial_run_agrees in H. subst c.
    apply partial_step_none.
    + rewrite run_up. reflexivity.
    + exact (run_pitch_clamped ops (init g) (init_pitch_clamped g)).
    + rewrite run_duration. simpl. lra.
  - intro ops. exists (t_centre (Vec.mk 0 0 1)).
    split; [exact partial_run_t_centre |].
    split; [exact small_planet_config_valid |].
    split; [reflexivity |].
    apply partial_check_collision_none.
    assert (Hn : Vec.norm (position (t_centre (Vec.mk 0 0 1))) = 0)
      by exact norm_zeros.
    rewrite Hn. split; [reflexivity | simpl; lra].
Qed.

Lemma C7_camera_operations_defined_witness :
  let c := s_free_looking in
  (up c = Vec.mk 0 1 0 /\ pitch_lo <= pitch c <= pitch_hi) /\
  0 < Vec.norm (Vec.cross (_get_forward_vector c) (up c)) /\
  Partial.move 1 0 0 false c = Some (move 1 0 0 false c).
Proof.
  intro c.
  assert (Hp : pitch_lo <= pitch c <= pitch_hi) by exact pitch_bounds_ordered.
  split; [split; [reflexivity | exact Hp] |].
  destruct (proj1 C7_camera_operations_defined c 1 0 0 false eq_refl Hp)
    as (_ & Hpos & _ & _ & Hm & _).
  split; [exact Hpos | exact Hm].
Defined.

(** ** C8: the guard of [TextureGenerator.generate] *)

Section GenerateFacts.

Variable Rng : Type.
Variable snoise3 : R -> R -> R -> Z -> R -> R -> Texture.exn + R.
Variable randint : Z -> Z -> Rng -> Z * Rng.
Variable uniform : R -> R -> Rng -> R * Rng.

Lemma range_pos (n : Z) :
  (0 < n)%Z -> exists l, Texture.range n = 0%Z :: l.
Proof.
  intro H. unfold Texture.range.
  destruct (Z.to_nat n) as [|k] eqn:E; [lia |].
  simpl. eexists. reflexivity.
Qed.

(** Past the guard the noise is sampled: when [snoise3] raises, the
    exception is wrapped in a [RuntimeError], and the random generator
    has not been used yet. *)
Lemma generate_wraps_noise_failure (e : Texture.exn) (width height : Z)
    (s : Rng) :
  (forall a b c o p l, snoise3 a b c o p l = inl e) ->
  (0 < width)%Z -> (0 < height)%Z ->
  Texture.generate Rng snoise3 randint uniform width height s
  = (inl (Texture.RuntimeError
            ("Failed to generate texture: " ++ Texture.str e)%string), s).
Proof.
  intros Hn Hw Hh. unfold Texture.generate.
  replace ((width <=? 0)%Z || (height <=? 0)%Z)%bool with false.
  2:{ symmetry. apply orb_false_iff. split; apply Z.leb_gt; assumption. }
  destruct (range_pos width Hw) as [lw Ew].
  destruct (range_pos height Hh) as [lh Eh].
  unfold Texture.try_except, Texture.bind at 1.
  unfold Texture._create_seamless_noise at 1.
  rewrite Ew, Eh. simpl Texture.for_each.
  unfold Texture.bind at 1. unfold Texture.bind at 1.
  unfold Texture.lift. rewrite Hn. reflexivity.
Qed.

End GenerateFacts.

(** C8. For every width and height of which one is not positive,
    [generate] raises the [ValueError] of its guard and does nothing
    else: the result does not depend on the noise function or on the
    random draws, and the state of the random generator is the one
    before the call. *)
Theorem C8_generate_rejects (Rng : Type)
    (snoise3 : R -> R -> R -> Z -> R -> R -> Texture.exn + R)
    (randint : Z -> Z -> Rng -> Z * Rng)
    (uniform : R -> R -> Rng -> R * Rng)
    (width height : Z) (s : Rng) :
  (width <= 0 \/ height <= 0)%Z ->
  Texture.generate Rng snoise3 randint uniform width height s
  = (inl (Texture.ValueError "Width and height must be positive integers."),
     s).
Proof.
  intro H. unfold Texture.generate.
  replace ((width <=? 0)%Z || (height <=? 0)%Z)%bool with true.
  - reflexivity.
  - symmetry. apply orb_true_iff.
    destruct H as [H | H]; [left | right]; apply Z.leb_le; exact H.
Qed.

Lemma C8_generate_rejects_witness :
  (512 <= 0 \/ 0 <= 0)%Z /\
  Texture.generate unit (fun _ _ _ _ _ _ => inr 0)
    (fun lo _ s => (lo, s)) (fun lo _ s => (lo, s)) 512 0 tt
  = (inl (Texture.ValueError "Width and height must be positive integers."),
     tt).
Proof.
  assert (H : (512 <= 0 \/ 0 <= 0)%Z) by (right; lia).
  split; [exact H |].
  apply (C8_generate_rejects unit (fun _ _ _ _ _ _ => inr 0)
           (fun lo _ s => (lo, s)) (fun lo _ s => (lo, s)) 512 0 tt H).
Defined.

(** * Further properties of the camera *)

(** ** The easing curve *)

Lemma cube_monotone (a b : R) : a <= b -> a ^ 3 <= b ^ 3.
Proof.
  intro H.
  assert (Hq : 0 <= a * a + a * b + b * b) by nra.
  assert (E : b ^ 3 - a ^ 3 = (b - a) * (a * a + a * b + b * b)) by ring.
  assert (0 <= (b - a) * (a * a + a * b + b * b))
    by (apply Rmult_le_pos; lra).
  lra.
Qed.

Lemma ease_low (t : R) : t < 0.5 -> _ease_in_out_cubic t = 4 * t ^ 3.
Proof.
  intro H. unfold _ease_in_out_cubic.
  destruct (Rlt_dec t 0.5); [ring | contradiction].
Qed.

Lemma ease_high (t : R) :
  0.5 <= t -> _ease_in_out_cubic t = 1 - (-2 * t + 2) ^ 3 / 2.
Proof.
  intro H. unfold _ease_in_out_cubic.
  destruct (Rlt_dec t 0.5); [lra | reflexivity].
Qed.

Lemma ease_monotone (s t : R) :
  s <= t -> _ease_in_out_cubic s <= _ease_in_out_cubic t.
Proof.
  intro H.
  destruct (Rlt_dec s 0.5) as [Hs | Hs]; destruct (Rlt_dec t 0.5) as [Ht | Ht].
  - rewrite !ease_low by assumption.
    pose proof (cube_monotone s t H). lra.
  - rewrite ease_low by assumption. rewrite ease_high by lra.
    assert (H1 : s ^ 3 <= 0.5 ^ 3) by (apply cube_monotone; lra).
    assert (H2 : (-2 * t + 2) ^ 3 <= 1 ^ 3) by (apply cube_monotone; lra).
    lra.
  - lra.
  - rewrite !ease_high by lra.
    assert (H1 : (-2 * t + 2) ^ 3 <= (-2 * s + 2) ^ 3)
      by (apply cube_monotone; lra).
    lra.
Qed.

Lemma ease_range (t : R) : 0 <= t <= 1 -> 0 <= _ease_in_out_cubic t <= 1.
Proof.
  intros [H0 H1]. split.
  - rewrite <- ease_0. apply ease_monotone. exact H0.
  - rewrite <- ease_1. apply ease_monotone. exact H1.
Qed.

(** X1. The easing function never decreases, on the whole real line
    (the two branches meet without a step at one half), and it maps
    the progress range [0, 1] into [0, 1]. *)
Theorem X1_ease_monotone (s t : R) :
  s <= t ->
  _ease_in_out_cubic s <= _ease_in_out_cubic t /\
  (0 <= s -> t <= 1 ->
   0 <= _ease_in_out_cubic s /\ _ease_in_out_cubic t <= 1).
Proof.
  intro H. split; [apply ease_monotone; exact H |].
  intros H0 H1. split.
  - apply (ease_range s). lra.
  - apply (ease_range t). lra.
Qed.

Lemma X1_ease_monotone_witness :
  0.25 <= 0.75 /\
  _ease_in_out_cubic 0.25 <= _ease_in_out_cubic 0.75 /\
  0 <= _ease_in_out_cubic 0.25 /\ _ease_in_out_cubic 0.75 <= 1.
Proof.
  assert (H : 0.25 <= 0.75) by lra.
  destruct (X1_ease_monotone 0.25 0.75 H) as [Hm Hr].
  split; [exact H | split; [exact Hm | apply Hr; lra]].
Defined.

(** X2. The easing curve is symmetric about (0.5, 0.5): easing [1 - t]
    gives one minus the easing of [t], for every [t]. *)
Theorem X2_ease_symmetric (t : R) :
  _ease_in_out_cubic (1 - t) = 1 - _ease_in_out_cubic t.
Proof.
  destruct (Rlt_dec t 0.5) as [Ht | Ht].
  - rewrite (ease_low t) by assumption. rewrite ease_high by lra. field.
  - destruct (Req_dec_T t 0.5) as [E | E].
    + subst t. replace (1 - 0.5) with 0.5 by lra.
      rewrite ease_high by lra. lra.
    + rewrite (ease_high t) by lra. rewrite ease_low by lra. field.
Qed.

(** ** The transition step inside [update] *)

(** The orientation step of [update] leaves the transition alone. *)
Lemma orientation_step_frame (dx dy : R) (c : Camera) :
  let c1 := match mode c with
            | orbit => _update_orbit dx dy c
            | free => _update_free dx dy c
            end in
  mode c1 = mode c /\
  transition_progress c1 = transition_progress c /\
  transition_duration c1 = transition_duration c /\
  start_position c1 = start_position c /\
  start_target c1 = start_target c /\
  end_position c1 = end_position c /\
  end_target c1 = end_target c.
Proof.
  destruct c as [g d yw p pos tgt u m sp bf pr du s1 s2 e1 e2].
  destruct m; simpl; repeat split.
Qed.

Lemma update_running (dx dy dt : R) (c : Camera) :
  transition_progress c < 1 ->
  let p := Rmin 1 (transition_progress c + dt / transition_duration c) in
  let t := _ease_in_out_cubic p in
  transition_progress (update dx dy dt c) = p /\
  position (update dx dy dt c)
  = Vec.add (Vec.scale (start_position c) (1 - t))
            (Vec.scale (end_position c) t) /\
  target (update dx dy dt c)
  = Vec.add (Vec.scale (start_target c) (1 - t))
            (Vec.scale (end_target c) t) /\
  mode (update dx dy dt c) = mode c.
Proof.
  intros H p t. unfold update.
  destruct (orientation_step_frame dx dy c)
    as (Hm & Hp & Hd & Hs1 & Hs2 & He1 & He2).
  set (c1 := match mode c with
             | orbit => _update_orbit dx dy c
             | free => _update_free dx dy c
             end) in *.
  assert (Hlt : transition_progress c1 < 1) by (rewrite Hp; exact H).
  destruct (_update_transition_running dt c1 Hlt)
    as (Hp' & Hpos & Htgt & Hm' & _).
  change (transition_progress (_update_transition dt c1) = p /\
          position (_update_transition dt c1)
          = Vec.add (Vec.scale (start_position c) (1 - t))
                    (Vec.scale (end_position c) t) /\
          target (_update_transition dt c1)
          = Vec.add (Vec.scale (start_target c) (1 - t))
                    (Vec.scale (end_target c) t) /\
          mode (_update_transition dt c1) = mode c).
  rewrite Hp', Hpos, Htgt, Hm', Hp, Hd, Hs1, Hs2, He1, He2, Hm.
  repeat split.
Qed.

(** X3. A transition in flight ends exactly on its end pose: when the
    elapsed time covers what is left of the duration, [update] sets the
    progress to 1, the position to [end_position] and the target to
    [end_target], whatever the pointer deltas. *)
Theorem X3_transition_completes (dx dy dt : R) (c : Camera) :
  transition_progress c < 1 ->
  0 < transition_duration c ->
  (1 - transition_progress c) * transition_duration c <= dt ->
  let c' := update dx dy dt c in
  transition_progress c' = 1 /\
  position c' = end_position c /\ target c' = end_target c.
Proof.
  intros Hp Hd Hdt c'.
  destruct (update_running dx dy dt c Hp) as (Hp' & Hpos & Htgt & _).
  fold c' in Hp', Hpos, Htgt.
  assert (E : Rmin 1 (transition_progress c + dt / transition_duration c) = 1).
  { apply Rmin_left.
    assert (1 - transition_progress c <= dt / transition_duration c).
    { apply Rmult_le_reg_r with (transition_duration c); [exact Hd |].
      unfold Rdiv. rewrite Rmult_assoc, Rinv_l by lra. lra. }
    lra. }
  rewrite E in *. rewrite ease_1 in *.
  rewrite Hp', Hpos, Htgt. repeat split; apply lerp_at_1.
Qed.

Lemma X3_transition_completes_witness :
  let c := toggle_mode (init default_config) in
  (transition_progress c < 1 /\ 0 < transition_duration c /\
   (1 - transition_progress c) * transition_duration c <= 1.5) /\
  transition_progress (update 3 4 1.5 c) = 1 /\
  position (update 3 4 1.5 c) = end_position c /\
  target (update 3 4 1.5 c) = end_target c.
Proof.
  intro c.
  assert (H1 : transition_progress c < 1) by (simpl; lra).
  assert (H2 : 0 < transition_duration c) by (simpl; lra).
  assert (H3 : (1 - transition_progress c) * transition_duration c <= 1.5)
    by (simpl; lra).
  split; [repeat split; assumption |].
  exact (X3_transition_completes 3 4 1.5 c H1 H2 H3).
Defined.

(** X4. While a transition is in flight and time moves forward, the
    progress never goes back and never passes 1, and position and
    target are the same convex combination of their start and end
    values, with a weight between 0 and 1. *)
Theorem X4_transition_interpolates (dx dy dt : R) (c : Camera) :
  0 <= transition_progress c < 1 ->
  0 < transition_duration c ->
  0 <= dt ->
  let c' := update dx dy dt c in
  transition_progress c <= transition_progress c' <= 1 /\
  exists t, 0 <= t <= 1 /\
    position c' = Vec.add (Vec.scale (start_position c) (1 - t))
                          (Vec.scale (end_position c) t) /\
    target c' = Vec.add (Vec.scale (start_target c) (1 - t))
                        (Vec.scale (end_target c) t).
Proof.
  intros [Hp0 Hp] Hd Hdt c'.
  destruct (update_running dx dy dt c Hp) as (Hp' & Hpos & Htgt & _).
  fold c' in Hp', Hpos, Htgt.
  set (p := Rmin 1 (transition_progress c + dt / transition_duration c)) in *.
  assert (Hq : 0 <= dt / transition_duration c).
  { unfold Rdiv. apply Rmult_le_pos; [exact Hdt |].
    left. apply Rinv_0_lt_compat. exact Hd. }
  assert (Hpr : transition_progress c <= p <= 1).
  { unfold p. split; [apply Rmin_glb; lra | apply Rmin_l]. }
  split; [rewrite Hp'; exact Hpr |].
  exists (_ease_in_out_cubic p). split; [apply ease_range; lra |].
  split; assumption.
Qed.

Lemma X4_transition_interpolates_witness :
  let c := toggle_mode (init default_config) in
  (0 <= transition_progress c < 1 /\ 0 < transition_duration c /\
   0 <= 0.25) /\
  transition_progress c <= transition_progress (update 3 4 0.25 c) <= 1 /\
  exists t, 0 <= t <= 1 /\
    position (update 3 4 0.25 c)
    = Vec.add (Vec.scale (start_position c) (1 - t))
              (Vec.scale (end_position c) t) /\
    target (update 3 4 0.25 c)
    = Vec.add (Vec.scale (start_target c) (1 - t))
              (Vec.scale (end_target c) t).
Proof.
  intro c.
  assert (H1 : 0 <= transition_progress c < 1) by (simpl; lra).
  assert (H2 : 0 < transition_duration c) by (simpl; lra).
  assert (H3 : 0 <= 0.25) by lra.
  split; [repeat split; try assumption; apply H1 |].
  exact (X4_transition_interpolates 3 4 0.25 c H1 H2 H3).
Defined.

(** X5. An [update] with [dt = 0], as the viewer issues for every
    pointer motion, never advances a transition: the progress is the
    one before the call, whether or not a transition is in flight. *)
Theorem X5_update_dt_0_keeps_progress (dx dy : R) (c : Camera) :
  transition_progress (update dx dy 0 c) = transition_progress c.
Proof.
  destruct (Rlt_dec (transition_progress c) 1) as [Hlt | Hge].
  - destruct (update_running dx dy 0 c Hlt) as (Hp' & _).
    rewrite Hp'. unfold Rdiv. rewrite Rmult_0_l, Rplus_0_r.
    apply Rmin_right. lra.
  - rewrite update_done by lra.
    destruct (orientation_step_frame dx dy c) as (_ & Hp & _). exact Hp.
Qed.

(** ** Moving and zooming *)

Lemma forward_unit (c : Camera) : Vec.norm (_get_forward_vector c) = 1.
Proof.
  unfold _get_forward_vector.
  replace (Vec.mk (cos (pitch c) * sin (yaw c)) (sin (pitch c))
                  (cos (pitch c) * cos (yaw c)))
    with (Vec.mk (1 * cos (pitch c) * sin (yaw c)) (1 * sin (pitch c))
                 (1 * cos (pitch c) * cos (yaw c)))
    by (apply vec3_eq; simpl; ring).
  rewrite norm_spherical. apply Rabs_R1.
Qed.

(** What [move] leaves alone, in either mode. *)
Lemma move_frame (f r u : R) (b : bool) (c : Camera) :
  let c' := move f r u b c in
  config c' = config c /\ mode c' = mode c /\
  distance c' = distance c /\ yaw c' = yaw c /\ pitch c' = pitch c /\
  transition_progress c' = transition_progress c /\
  transition_duration c' = transition_duration c /\
  start_position c' = start_position c /\
  start_target c' = start_target c /\
  end_position c' = end_position c /\ end_target c' = end_target c.
Proof.
  destruct c as [g d yw p pos tgt up0 m sp bf pr du s1 s2 e1 e2].
  destruct m; unfold move; simpl; repeat split.
Qed.

(** X6. [move] does nothing in orbit mode; in free mode it translates
    position and target by one and the same displacement, so the look
    direction is kept, and it changes neither the angles, the distance,
    the mode nor the transition. *)
Theorem X6_move_translates (f r u : R) (b : bool) (c : Camera) :
  let c' := move f r u b c in
  (mode c = orbit -> c' = c) /\
  (exists d, position c' = Vec.add (position c) d /\
             target c' = Vec.add (target c) d) /\
  mode c' = mode c /\ distance c' = distance c /\
  yaw c' = yaw c /\ pitch c' = pitch c /\
  transition_progress c' = transition_progress c.
Proof.
  intro c'.
  destruct (move_frame f r u b c) as (_ & Hm & Hd & Hy & Hp & Hpr & _).
  fold c' in Hm, Hd, Hy, Hp, Hpr.
  split; [|split; [|repeat split; assumption]].
  - intro H. unfold c', move. rewrite H. reflexivity.
  - unfold c', move. destruct (mode c).
    + exists Vec.zeros. split; apply vec3_eq; simpl; ring.
    + eexists. split; reflexivity.
Qed.

(** X7. In free mode [zoom] is a step along the forward vector: with
    [up = (0, 1, 0)] and the pitch in the clamp range, position and
    target both move by forward * (amount * zoom_speed * speed), a
    displacement of length |amount * zoom_speed * speed| since the
    forward vector has norm one; the right vector it also computes is
    divided by a positive norm and enters with weight 0, and the boost
    factor plays no part. *)
Theorem X7_zoom_free_along_forward (amount : R) (c : Camera) :
  mode c = free ->
  up c = Vec.mk 0 1 0 ->
  pitch_lo <= pitch c <= pitch_hi ->
  let k := amount * zoom_speed (config c) * speed c in
  let d := Vec.scale (_get_forward_vector c) k in
  0 < Vec.norm (Vec.cross (_get_forward_vector c) (up c)) /\
  position (zoom amount c) = Vec.add (position c) d /\
  target (zoom amount c) = Vec.add (target c) d /\
  Vec.norm d = Rabs k.
Proof.
  intros Hm Hup Hp k d.
  split; [|split; [|split]].
  - rewrite (cross_forward_up_norm c Hup).
    apply Rabs_pos_lt, Rgt_not_eq, cos_clamped_pitch_pos, Hp.
  - unfold zoom, move. rewrite Hm. simpl.
    apply vec3_eq; simpl; unfold k; ring.
  - unfold zoom, move. rewrite Hm. simpl.
    apply vec3_eq; simpl; unfold k; ring.
  - unfold d. rewrite norm_scale, forward_unit. ring.
Qed.

Lemma X7_zoom_free_along_forward_witness :
  let c := toggle_mode (init default_config) in
  let k := 2 * zoom_speed (config c) * speed c in
  let d := Vec.scale (_get_forward_vector c) k in
  (mode c = free /\ up c = Vec.mk 0 1 0 /\
   pitch_lo <= pitch c <= pitch_hi) /\
  0 < Vec.norm (Vec.cross (_get_forward_vector c) (up c)) /\
  position (zoom 2 c) = Vec.add (position c) d /\
  target (zoom 2 c) = Vec.add (target c) d /\
  Vec.norm d = Rabs k.
Proof.
  intros c k d.
  assert (Hp : pitch_lo <= pitch c <= pitch_hi) by exact pitch_bounds_ordered.
  split; [split; [reflexivity | split; [reflexivity | exact Hp]] |].
  exact (X7_zoom_free_along_forward 2 c eq_refl eq_refl Hp).
Defined.

(** X8. In orbit mode, with a configuration in which
    [planet_radius + 0.1 <= max_distance], [zoom] leaves the distance
    within [planet_radius + 0.1, max_distance], takes exactly
    [amount * zoom_speed] off it when that stays in range, and keeps
    yaw, pitch and mode. *)
Theorem X8_zoom_orbit_bounds (amount : R) (c : Camera) :
  mode c = orbit ->
  planet_radius (config c) + 0.1 <= max_distance (config c) ->
  let c' := zoom amount c in
  let wanted := distance c - amount * zoom_speed (config c) in
  planet_radius (config c) + 0.1 <= distance c' <= max_distance (config c) /\
  (planet_radius (config c) + 0.1 <= wanted <= max_distance (config c) ->
   distance c' = wanted) /\
  yaw c' = yaw c /\ pitch c' = pitch c /\ mode c' = orbit.
Proof.
  intros Hm Hb c' wanted.
  destruct (zoom_orbit amount c Hm) as (Hm' & _ & Hd & _).
  fold c' in Hm', Hd.
  split; [rewrite Hd; split; [apply clip_ge_lo; exact Hb | apply clip_le_hi] |].
  split; [intro Hw; rewrite Hd; apply clip_inside; exact Hw |].
  unfold c', zoom. rewrite Hm.
  destruct c; simpl in *. repeat split. exact Hm.
Qed.

Lemma X8_zoom_orbit_bounds_witness :
  let c := init default_config in
  (mode c = orbit /\
   planet_radius (config c) + 0.1 <= max_distance (config c)) /\
  planet_radius (config c) + 0.1 <= distance (zoom 1 c)
    <= max_distance (config c) /\
  distance (zoom 1 c) = 29.5.
Proof.
  intro c.
  assert (Hb : planet_radius (config c) + 0.1 <= max_distance (config c))
    by (simpl; lra).
  destruct (X8_zoom_orbit_bounds 1 c eq_refl Hb) as (H1 & H2 & _).
  split; [split; [reflexivity | exact Hb] |].
  split; [exact H1 |].
  rewrite H2; simpl; lra.
Defined.

(** ** Toggling *)

(** X9. [toggle_mode] always changes the mode, and toggling twice from
    orbit mode does not bring the orbit pose back but resets it:
    distance is the configured initial distance, yaw and pitch are 0
    and the position is (0, 0, initial_distance), with a fresh
    transition armed. *)
Theorem X9_toggle_twice_resets (c : Camera) :
  mode (toggle_mode c) <> mode c /\
  (mode c = orbit ->
   let c2 := toggle_mode (toggle_mode c) in
   mode c2 = orbit /\
   distance c2 = initial_distance (config c) /\ yaw c2 = 0 /\ pitch c2 = 0 /\
   position c2 = Vec.mk 0 0 (initial_distance (config c)) /\
   transition_progress c2 = 0).
Proof.
  split.
  - unfold toggle_mode. destruct (mode c); simpl; discriminate.
  - intros Hm c2.
    destruct (toggle_mode_orbit_to_free c Hm) as (Hf & _).
    destruct (toggle_mode_free_to_orbit (toggle_mode c) Hf)
      as (Hm2 & Hd & Hy & Hp & Hpos & _ & _ & _ & _ & _ & Hpr).
    fold c2 in Hm2, Hd, Hy, Hp, Hpos, Hpr.
    assert (Hc : config (toggle_mode c) = config c).
    { unfold toggle_mode. rewrite Hm. reflexivity. }
    rewrite Hc in Hd, Hpos. repeat split; assumption.
Qed.

Lemma lerp_same (a : Vec.vec3) (t : R) :
  Vec.add (Vec.scale a (1 - t)) (Vec.scale a t) = a.
Proof. apply vec3_eq; simpl; ring. Qed.

Lemma toggle_mode_pins (c : Camera) :
  let c' := toggle_mode c in
  transition_progress c' = 0 /\
  start_position c' = position c' /\ end_position c' = position c'.
Proof.
  unfold toggle_mode. destruct (mode c); simpl; repeat split.
Qed.

(** X10. Right after a toggle, in either direction, the transition
    starts and ends at the position the toggle left, so the next
    [update] puts the camera back there: a [move] made in between is
    undone, whatever its amounts and whatever the elapsed time. *)
Theorem X10_update_after_toggle_pins_position
    (f r u : R) (b : bool) (dx dy dt : R) (c : Camera) :
  let c' := toggle_mode c in
  position (update dx dy dt (move f r u b c')) = position c'.
Proof.
  intro c'.
  destruct (toggle_mode_pins c) as (Hp & Hs & He). fold c' in Hp, Hs, He.
  destruct (move_frame f r u b c')
    as (_ & _ & _ & _ & _ & Hpr & _ & Hs1 & _ & He1 & _).
  assert (Hlt : transition_progress (move f r u b c') < 1)
    by (rewrite Hpr, Hp; lra).
  destruct (update_running dx dy dt _ Hlt) as (_ & Hpos & _).
  rewrite Hpos, Hs1, He1, Hs, He. apply lerp_same.
Qed.

(** ** Collision *)

(** X11. For a position off the origin and closer to it than
    [planet_radius + 0.1], [check_collision] scales the position by a
    positive factor (the direction from the origin is kept) onto the
    sphere of radius [planet_radius + 0.1]; in orbit mode the distance
    is set to that radius, in free mode it is kept; target and mode are
    unchanged. *)
Theorem X11_check_collision_clamps (r : R) (c : Camera) :
  0 < Vec.norm (position c) ->
  Vec.norm (position c) < r + 0.1 ->
  let c' := check_collision r c in
  let k := (r + 0.1) / Vec.norm (position c) in
  0 < k /\
  position c' = Vec.scale (position c) k /\
  Vec.norm (position c') = r + 0.1 /\
  distance c' = match mode c with
                | orbit => r + 0.1
                | free => distance c
                end /\
  target c' = target c /\ mode c' = mode c.
Proof. exact (check_collision_clamps r c). Qed.

Lemma X11_check_collision_clamps_witness :
  let c := init default_config in
  (0 < Vec.norm (position c) /\ Vec.norm (position c) < 40 + 0.1) /\
  Vec.norm (position (check_collision 40 c)) = 40 + 0.1 /\
  distance (check_collision 40 c) = 40 + 0.1.
Proof.
  intro c.
  assert (Hn : Vec.norm (position c) = 30)
    by (simpl; apply norm_z_axis; lra).
  assert (H1 : 0 < Vec.norm (position c)) by lra.
  assert (H2 : Vec.norm (position c) < 40 + 0.1) by lra.
  destruct (X11_check_collision_clamps 40 c H1 H2) as (_ & _ & Hn' & Hd & _).
  split; [split; assumption | split; [exact Hn' | exact Hd]].
Defined.

(** X12. Whenever the camera is not exactly at the origin,
    [check_collision] leaves it at least [planet_radius + 0.1] away
    from the origin, and checking a second time changes nothing. *)
Theorem X12_check_collision_outside (r : R) (c : Camera) :
  0 < Vec.norm (position c) ->
  let c' := check_collision r c in
  r + 0.1 <= Vec.norm (position c') /\
  check_collision r c' = c'.
Proof.
  intros Hn c'.
  assert (H : r + 0.1 <= Vec.norm (position c')).
  { unfold c'.
    destruct (Rlt_dec (Vec.norm (position c)) (r + 0.1)) as [Hlt | Hge].
    - destruct (check_collision_clamps r c Hn Hlt) as (_ & _ & Hn' & _).
      rewrite Hn'. lra.
    - rewrite check_collision_unchanged by lra. lra. }
  split; [exact H | apply check_collision_unchanged; exact H].
Qed.

Lemma X12_check_collision_outside_witness :
  let c := init default_config in
  0 < Vec.norm (position c) /\
  40 + 0.1 <= Vec.norm (position (check_collision 40 c)) /\
  check_collision 40 (check_collision 40 c) = check_collision 40 c.
Proof.
  intro c.
  assert (H1 : 0 < Vec.norm (position c))
    by (simpl; rewrite norm_z_axis; lra).
  split; [exact H1 | exact (X12_check_collision_outside 40 c H1)].
Defined.

(** ** The free-mode pose *)

Lemma move_keeps_free_pose (f r u : R) (b : bool) (c : Camera) :
  mode c = free -> pose_consistent c -> pose_consistent (move f r u b c).
Proof.
  intros Hm Hpose. unfold pose_consistent in *. rewrite Hm in Hpose.
  destruct (move_frame f r u b c) as (_ & Hm' & _).
  rewrite Hm', Hm.
  unfold move. rewrite Hm.
  destruct c as [g d yw p pos tgt up0 m sp bf pr du s1 s2 e1 e2].
  unfold _get_forward_vector in *. simpl in *. subst tgt.
  apply vec3_eq; simpl; ring.
Qed.

(** X13. In free mode with no transition in flight, [update] keeps the
    position and sets the target one unit ahead of it: target =
    position + forward, with a forward vector of norm one; any [move]
    after that keeps target = position + forward. *)
Theorem X13_free_mode_pose (dx dy dt : R) (c : Camera) :
  mode c = free ->
  1 <= transition_progress c ->
  let c' := update dx dy dt c in
  position c' = position c /\
  target c' = Vec.add (position c') (_get_forward_vector c') /\
  Vec.norm (_get_forward_vector c') = 1 /\
  (forall f r u b,
     let c'' := move f r u b c' in
     target c'' = Vec.add (position c'') (_get_forward_vector c'')).
Proof.
  intros Hm Hp c'.
  assert (E : c' = _update_free dx dy c).
  { unfold c'. rewrite update_done by exact Hp. rewrite Hm. reflexivity. }
  assert (Hm' : mode c' = free).
  { rewrite E. destruct c; simpl in *. exact Hm. }
  assert (Hpose : pose_consistent c').
  { unfold pose_consistent. rewrite Hm'. rewrite E. reflexivity. }
  split; [rewrite E; destruct c; reflexivity |].
  split; [unfold pose_consistent in Hpose; rewrite Hm' in Hpose; exact Hpose |].
  split; [apply forward_unit |].
  intros f r u b c''.
  pose proof (move_keeps_free_pose f r u b c' Hm' Hpose) as H.
  unfold pose_consistent in H.
  destruct (move_frame f r u b c') as (_ & Hm'' & _).
  fold c'' in H, Hm''. rewrite Hm'', Hm' in H. exact H.
Qed.

Lemma X13_free_mode_pose_witness :
  let c := s_free_done in
  (mode c = free /\ 1 <= transition_progress c) /\
  position (update 3 4 0.5 c) = position c /\
  target (update 3 4 0.5 c)
  = Vec.add (position (update 3 4 0.5 c))
            (_get_forward_vector (update 3 4 0.5 c)).
Proof.
  intro c.
  assert (H : 1 <= transition_progress c) by (simpl; lra).
  destruct (X13_free_mode_pose 3 4 0.5 c eq_refl H) as (H1 & H2 & _).
  split; [split; [reflexivity | exact H] | split; assumption].
Defined.

(** ** Runs from a fresh camera *)

Lemma step_config (o : Op) (c : Camera) : config (step o c) = config c.
Proof.
  destruct o; simpl.
  - unfold update, _update_transition.
    destruct (mode c); destruct (Rlt_dec _ _); reflexivity.
  - apply move_frame.
  - unfold zoom. destruct (mode c); [reflexivity | apply move_frame].
  - unfold toggle_mode. destruct (mode c); reflexivity.
  - unfold check_collision. destruct (Rlt_dec _ _); [|reflexivity].
    destruct c as [? ? ? ? ? ? ? m ? ? ? ? ? ? ? ?]. destruct m; reflexivity.
Qed.

Lemma run_config (ops : list Op) : forall c, config (run ops c) = config c.
Proof.
  unfold run. induction ops as [|o ops IH]; intro c; simpl.
  - reflexivity.
  - rewrite IH. apply step_config.
Qed.

Lemma run_transition_inv (ops : list Op) :
  forall c, transition_inv c -> transition_inv (run ops c).
Proof.
  unfold run. induction ops as [|o ops IH]; intros c H; simpl.
  - exact H.
  - apply IH, step_transition_inv, H.
Qed.

Lemma init_transition_inv (g : Config) : transition_inv (init g).
Proof. split; simpl; [lra | intros _; split; reflexivity]. Qed.

(** A run without a collision check divides by no zero. *)
Lemma partial_run_no_check (ops : list Op) :
  forall c,
    up c = Vec.mk 0 1 0 -> pitch_clamped c -> transition_duration c <> 0 ->
    (forall r, ~ In (OpCheck r) ops) ->
    Partial.run ops c = Some (run ops c).
Proof.
  induction ops as [|o ops IH]; intros c Hup Hp Hd Hn.
  - reflexivity.
  - cbn [Partial.run]. rewrite (partial_step_some o c Hup Hp Hd).
    + change (Partial.run ops (step o c) = Some (run ops (step o c))).
      apply IH.
      * rewrite step_up. exact Hup.
      * apply step_pitch_clamped. exact Hp.
      * rewrite step_duration. exact Hd.
      * intros r Hin. apply (Hn r). right. exact Hin.
    + intros r E. exfalso. apply (Hn r). left. exact E.
Qed.

(** Along every run from a fresh camera that divides by no zero: in
    orbit mode, once no transition is in flight, the target is the
    origin. *)
Lemma run_orbit_target_origin (g : Config) (ops : list Op) (c : Camera) :
  Partial.run ops (init g) = Some c ->
  mode c = orbit -> 1 <= transition_progress c -> target c = Vec.zeros.
Proof.
  intros H Hm Hp. apply partial_run_agrees in H. subst c.
  destruct (run_transition_inv ops (init g) (init_transition_inv g))
    as [_ Ho].
  destruct (Ho Hm) as [_ Ht]. apply Ht. exact Hp.
Qed.

(** X14. After any sequence of public operations on a fresh camera:
    the configuration is the one it was built with, the pitch is in
    the clamp range, the transition progress is at most 1, the vector
    that [move] normalises has a positive norm and, in orbit mode, the
    transition ends at the origin.  These attributes are fed by no
    division of an array.  A run without [check_collision] divides by
    no zero, and after a run that divides by no zero the target is the
    origin in orbit mode once no transition is in flight. *)
Theorem X14_run_invariants (g : Config) (ops : list Op) :
  let c := run ops (init g) in
  config c = g /\
  pitch_lo <= pitch c <= pitch_hi /\
  transition_progress c <= 1 /\
  0 < Vec.norm (Vec.cross (_get_forward_vector c) (up c)) /\
  (mode c = orbit -> end_target c = Vec.zeros) /\
  ((forall r, ~ In (OpCheck r) ops) ->
   Partial.run ops (init g) = Some c) /\
  (Partial.run ops (init g) = Some c ->
   mode c = orbit -> 1 <= transition_progress c -> target c = Vec.zeros).
Proof.
  intro c.
  destruct (run_transition_inv ops (init g) (init_transition_inv g))
    as [Hle Ho].
  fold c in Hle, Ho.
  split; [unfold c; rewrite run_config; reflexivity |].
  split; [exact (run_pitch_clamped ops (init g) (init_pitch_clamped g)) |].
  split; [exact Hle |].
  split; [exact (run_move_divisor_positive g ops) |].
  split; [intro Hm; exact (proj1 (Ho Hm)) |].
  split.
  - intro Hn. apply partial_run_no_check;
      [reflexivity | exact (init_pitch_clamped g) | simpl; lra | exact Hn].
  - apply run_orbit_target_origin.
Qed.

Lemma X14_run_invariants_witness :
  let ops := [OpZoom 1; OpUpdate 3 4 0.5] in
  let c := run ops (init default_config) in
  (Partial.run ops (init default_config) = Some c /\
   mode c = orbit /\ 1 <= transition_progress c) /\
  target c = Vec.zeros.
Proof.
  intros ops c.
  destruct (X14_run_invariants default_config ops)
    as (_ & _ & _ & _ & _ & Hdef & Htgt).
  fold c in Hdef, Htgt.
  assert (Hn : forall r, ~ In (OpCheck r) ops).
  { intros r [E | [E | []]]; discriminate E. }
  assert (Hc : c = _update_orbit 3 4 (zoom 1 (init default_config))).
  { unfold c, ops, run. cbn [fold_left step].
    rewrite update_done by (simpl; lra). reflexivity. }
  assert (Hm : mode c = orbit) by (rewrite Hc; reflexivity).
  assert (Hp : 1 <= transition_progress c) by (rewrite Hc; simpl; lra).
  split; [split; [exact (Hdef Hn) | split; [exact Hm | exact Hp]] |].
  exact (Htgt (Hdef Hn) Hm Hp).
Defined.

(** * The event loop of the viewer *)

Lemma move_orbit_noop (f r u : R) (b : bool) (c : Camera) :
  mode c = orbit -> move f r u b c = c.
Proof. intro H. unfold move. rewrite H. reflexivity. Qed.

Lemma run_app (ops1 ops2 : list Op) (c : Camera) :
  run (ops1 ++ ops2) c = run ops2 (run ops1 c).
Proof. unfold run. apply fold_left_app. Qed.

(** The event loop applies the operations of [event_ops], in order. *)
Lemma process_events_ops (events : list Viewer.Event) :
  forall c, snd (Viewer.process_events events c)
            = run (Viewer.event_ops events) c.
Proof.
  induction events as [|e rest IH]; intro c; [reflexivity |].
  destruct e as [|k|dx dy|wy|]; simpl.
  - reflexivity.
  - destruct k; simpl; [reflexivity | apply IH | apply IH].
  - apply IH.
  - apply IH.
  - apply IH.
Qed.

Lemma handle_events_ops (events : list Viewer.Event)
    (keys : Viewer.Pressed) (c : Camera) :
  exists ops, snd (Viewer.handle_events events keys c) = run ops c.
Proof.
  unfold Viewer.handle_events.
  pose proof (process_events_ops events c) as H.
  destruct (Viewer.process_events events c) as [[|] c1]; simpl in H.
  - destruct (mode c1) eqn:Em; simpl.
    + exists (Viewer.event_ops events). exact H.
    + eexists (Viewer.event_ops events ++ [OpMove _ _ _ _]).
      rewrite run_app, <- H. reflexivity.
  - exists (Viewer.event_ops events). exact H.
Qed.

Lemma frame_ops (dt : R) (events : list Viewer.Event)
    (keys : Viewer.Pressed) (v : Viewer.PlanetaryViewer) :
  exists ops,
    Viewer.camera (snd (Viewer.frame dt events keys v))
    = run ops (Viewer.camera v).
Proof.
  unfold Viewer.frame.
  destruct (handle_events_ops events keys (Viewer.camera v)) as [ops H].
  destruct (Viewer.handle_events events keys (Viewer.camera v))
    as [running c1]; simpl in *.
  exists (ops ++ [OpUpdate 0 0 dt;
                  OpCheck (planet_radius (config (update 0 0 dt c1)))]).
  rewrite run_app, <- H. reflexivity.
Qed.

Lemma viewer_run_ops (frames : list (R * list Viewer.Event * Viewer.Pressed)) :
  forall v, exists ops,
    Viewer.camera (Viewer.run frames v) = run ops (Viewer.camera v).
Proof.
  induction frames as [|[[dt events] keys] rest IH]; intro v.
  - exists []. reflexivity.
  - simpl. destruct (frame_ops dt events keys v) as [ops1 H1].
    destruct (Viewer.frame dt events keys v) as [running v1]; simpl in H1.
    destruct running.
    + destruct (IH v1) as [ops2 H2].
      exists (ops1 ++ ops2). rewrite run_app, <- H1. exact H2.
    + exists ops1. exact H1.
Qed.

(** X15. Whatever events, pressed keys and frame times the viewer loop
    meets, the camera it holds keeps the configuration it was built
    with, [up = (0, 1, 0)], a pitch within the clamp range, a
    transition progress of at most 1 and a positive norm for the vector
    that [move] divides by; and in orbit mode its transition ends at
    the origin.  None of these attributes is fed by a division of an
    array. *)
Theorem X15_viewer_loop_invariants (g : Config)
    (frames : list (R * list Viewer.Event * Viewer.Pressed)) :
  let c := Viewer.camera (Viewer.run frames (Viewer.init g)) in
  config c = g /\
  up c = Vec.mk 0 1 0 /\
  pitch_lo <= pitch c <= pitch_hi /\
  transition_progress c <= 1 /\
  0 < Vec.norm (Vec.cross (_get_forward_vector c) (up c)) /\
  (mode c = orbit -> end_target c = Vec.zeros).
Proof.
  intro c.
  destruct (viewer_run_ops frames (Viewer.init g)) as [ops H].
  simpl in H. fold c in H. rewrite H.
  destruct (run_transition_inv ops (init g) (init_transition_inv g))
    as [Hle Ho].
  split; [rewrite run_config; reflexivity |].
  split; [rewrite run_up; reflexivity |].
  split; [exact (run_pitch_clamped ops (init g) (init_pitch_clamped g)) |].
  split; [exact Hle |].
  split; [exact (run_move_divisor_positive g ops) |].
  intro Hm. exact (proj1 (Ho Hm)).
Qed.

Lemma process_events_app_stop (pre post : list Viewer.Event)
    (q : Viewer.Event) :
  q = Viewer.QUIT \/ q = Viewer.KEYDOWN Viewer.K_ESCAPE ->
  forall c,
    fst (Viewer.process_events pre c) = true ->
    Viewer.process_events (pre ++ q :: post) c
    = (false, snd (Viewer.process_events pre c)).
Proof.
  intro Hq. induction pre as [|e rest IH]; intros c Hrun.
  - simpl. destruct Hq; subst q; reflexivity.
  - destruct e as [|k|dx dy|wy|]; simpl in *.
    + discriminate.
    + destruct k; simpl in *; [discriminate | apply IH | apply IH]; exact Hrun.
    + apply IH; exact Hrun.
    + apply IH; exact Hrun.
    + apply IH; exact Hrun.
Qed.

(** X16. A [QUIT] event or an Escape key press ends event handling on
    the spot: [handle_events] returns [False] with the camera as the
    events before it left it, the events queued behind it are not
    applied and the pressed movement keys are not read; the loop still
    finishes that frame (update and collision check) and runs no
    further frame. *)
Theorem X16_quit_stops_event_handling
    (pre post : list Viewer.Event) (q : Viewer.Event)
    (keys : Viewer.Pressed) (c : Camera) :
  q = Viewer.QUIT \/ q = Viewer.KEYDOWN Viewer.K_ESCAPE ->
  fst (Viewer.process_events pre c) = true ->
  Viewer.handle_events (pre ++ q :: post) keys c
  = (false, snd (Viewer.process_events pre c)) /\
  forall dt t rest,
    Viewer.run ((dt, pre ++ q :: post, keys) :: rest)
               (Viewer.mkViewer c t)
    = let c1 := update 0 0 dt (snd (Viewer.process_events pre c)) in
      Viewer.mkViewer (check_collision (planet_radius (config c1)) c1)
                      (t + dt).
Proof.
  intros Hq Hrun.
  assert (H : Viewer.handle_events (pre ++ q :: post) keys c
              = (false, snd (Viewer.process_events pre c))).
  { unfold Viewer.handle_events.
    rewrite (process_events_app_stop pre post q Hq c Hrun). reflexivity. }
  split; [exact H |].
  intros dt t rest. simpl. unfold Viewer.frame. simpl.
  rewrite H. reflexivity.
Qed.

Lemma X16_quit_stops_event_handling_witness :
  let pre := [Viewer.MOUSEWHEEL 1; Viewer.KEYDOWN Viewer.K_SPACE] in
  let post := [Viewer.MOUSEWHEEL 5] in
  let keys := Viewer.mkPressed true false false false false false false false in
  let c := init default_config in
  (Viewer.QUIT = Viewer.QUIT \/
   Viewer.QUIT = Viewer.KEYDOWN Viewer.K_ESCAPE) /\
  fst (Viewer.process_events pre c) = true /\
  Viewer.handle_events (pre ++ Viewer.QUIT :: post) keys c
  = (false, toggle_mode (zoom 1 c)).
Proof.
  intros pre post keys c.
  assert (Hq : Viewer.QUIT = Viewer.QUIT \/
               Viewer.QUIT = Viewer.KEYDOWN Viewer.K_ESCAPE)
    by (left; reflexivity).
  assert (Hrun : fst (Viewer.process_events pre c) = true) by reflexivity.
  split; [exact Hq | split; [exact Hrun |]].
  exact (proj1 (X16_quit_stops_event_handling pre post Viewer.QUIT keys c
                  Hq Hrun)).
Defined.

(** * The light of the day/night cycle *)

Lemma frac_of_mod (time day_length : R) :
  day_length <> 0 ->
  let m := time - day_length * IZR (Int_part (time / day_length)) in
  0 <= m / day_length < 1.
Proof.
  intros Hd m.
  assert (E : m / day_length
              = time / day_length - IZR (Int_part (time / day_length))).
  { unfold m. field. exact Hd. }
  rewrite E. destruct (base_Int_part (time / day_length)) as [H1 H2].
  lra.
Qed.

(** X17. For a day length other than 0, [_update_lighting] places the
    light at (cos a, 0.2, sin a, 0) for an angle [a] in [0, 2 pi), sets
    an ambient level of 0.2 + 0.1 (sin a + 1), which lies between 0.2
    and 0.4, on the three colour channels with alpha 1, and a diffuse
    light of (0.8, 0.8, 0.8, 1); the horizontal part of the light
    direction has length one.  For a day length of 0 the modulo raises
    ([None]). *)
Theorem X17_lighting_bounds (day_length time : R) :
  (day_length = 0 -> Renderer._update_lighting day_length time = None) /\
  (day_length <> 0 ->
   exists a amb,
     Renderer._update_lighting day_length time
     = Some (Renderer.mkLighting (cos a, 0.2, sin a, 0)
                                 (amb, amb, amb, 1)
                                 (0.8, 0.8, 0.8, 1)) /\
     0 <= a < 2 * PI /\
     amb = 0.2 + 0.1 * (sin a + 1) /\
     0.2 <= amb <= 0.4 /\
     cos a * cos a + sin a * sin a = 1).
Proof.
  unfold Renderer._update_lighting, Renderer.float_mod. split.
  - intro H. destruct (Req_dec_T day_length 0); [reflexivity | contradiction].
  - intro H. destruct (Req_dec_T day_length 0) as [E | _]; [contradiction |].
    set (m := time - day_length * IZR (Int_part (time / day_length))).
    destruct (frac_of_mod time day_length H) as [H0 H1]. fold m in H0, H1.
    exists (m / day_length * 2 * PI).
    exists (0.2 + 0.2 * ((sin (m / day_length * 2 * PI) + 1) / 2)).
    split; [reflexivity |].
    pose proof PI_RGT_0 as Hpi.
    split; [split; nra |].
    split; [lra |].
    pose proof (SIN_bound (m / day_length * 2 * PI)) as [Hs1 Hs2].
    split; [lra |].
    pose proof (sin2_cos2 (m / day_length * 2 * PI)) as Hsc.
    unfold Rsqr in Hsc. lra.
Qed.

Lemma Int_part_plus_1 (r : R) : Int_part (r + 1) = (Int_part r + 1)%Z.
Proof.
  symmetry. apply Int_part_spec.
  destruct (base_Int_part r) as [H1 H2]. rewrite plus_IZR. lra.
Qed.

(** X18. The lighting repeats with the day length: the time
    [time + day_length] gives the same three light settings as [time],
    for every time and every day length. *)
Theorem X18_lighting_periodic (day_length time : R) :
  Renderer._update_lighting day_length (time + day_length)
  = Renderer._update_lighting day_length time.
Proof.
  unfold Renderer._update_lighting, Renderer.float_mod.
  destruct (Req_dec_T day_length 0) as [E | H]; [reflexivity |].
  assert (Eq : (time + day_length) / day_length = time / day_length + 1)
    by (field; exact H).
  rewrite Eq, Int_part_plus_1, plus_IZR.
  replace (time + day_length
           - day_length * (IZR (Int_part (time / day_length)) + 1))
    with (time - day_length * IZR (Int_part (time / day_length))) by ring.
  reflexivity.
Qed.

(** * The texture generator past its guard *)

Section TextureFacts.

Variable Rng : Type.
Variable snoise3 : R -> R -> R -> Z -> R -> R -> Texture.exn + R.
Variable randint : Z -> Z -> Rng -> Z * Rng.
Variable uniform : R -> R -> Rng -> R * Rng.

(** A loop yields one result per element, and every result has the
    property that each step guarantees. *)
Lemma for_each_inv {A B : Type} (Q : B -> Prop) (f : A -> Texture.M Rng B)
    (l : list A) :
  (forall a s b s', In a l -> f a s = (inr b, s') -> Q b) ->
  forall s bs s',
    Texture.for_each Rng f l s = (inr bs, s') ->
    List.length bs = List.length l /\ Forall Q bs.
Proof.
  induction l as [|a l IH]; intros Hf s bs s' H.
  - simpl in H. unfold Texture.ret in H. inversion H. split; constructor.
  - simpl in H. unfold Texture.bind in H.
    destruct (f a s) as [[e | b] s1] eqn:E1; [discriminate |].
    destruct (Texture.for_each Rng f l s1) as [[e | bs1] s2] eqn:E2;
      [discriminate |].
    unfold Texture.ret in H. inversion H; subst.
    destruct (IH (fun a0 s0 b0 s0' Hin => Hf a0 s0 b0 s0' (or_intror Hin))
                 s1 bs1 s' E2) as [Hl HQ].
    split; [simpl; rewrite Hl; reflexivity |].
    constructor; [|exact HQ].
    apply (Hf a s b s1); [left; reflexivity | exact E1].
Qed.

(** A loop whose steps never raise never raises. *)
Lemma for_each_total {A B : Type} (f : A -> Texture.M Rng B) (l : list A) :
  (forall a s, exists b s', f a s = (inr b, s')) ->
  forall s, exists bs s', Texture.for_each Rng f l s = (inr bs, s').
Proof.
  intro Hf. induction l as [|a l IH]; intro s.
  - exists [], s. reflexivity.
  - destruct (Hf a s) as (b & s1 & E1).
    destruct (IH s1) as (bs & s2 & E2).
    exists (b :: bs), s2. simpl. unfold Texture.bind.
    rewrite E1, E2. reflexivity.
Qed.

(** A loop whose steps leave the random state alone leaves it alone. *)
Lemma for_each_state {A B : Type} (f : A -> Texture.M Rng B) (l : list A) :
  (forall a s, snd (f a s) = s) ->
  forall s, snd (Texture.for_each Rng f l s) = s.
Proof.
  intro Hf. induction l as [|a l IH]; intro s; [reflexivity |].
  simpl. unfold Texture.bind.
  pose proof (Hf a s) as H1.
  destruct (f a s) as [[e | b] s1]; simpl in H1; subst s1; [reflexivity |].
  pose proof (IH s) as H2.
  destruct (Texture.for_each Rng f l s) as [[e | bs] s2]; simpl in H2;
    subst s2; reflexivity.
Qed.

Lemma range_length (n : Z) : List.length (Texture.range n) = Z.to_nat n.
Proof. unfold Texture.range. rewrite length_map, length_seq. reflexivity. Qed.

Lemma noise_as_rows (width height : Z) (scale : R) (octaves : Z)
    (persistence lacunarity : R) :
  Texture._create_seamless_noise Rng snoise3 width height scale octaves
    persistence lacunarity
  = Texture.for_each Rng
      (noise_row Rng snoise3 width height scale octaves persistence lacunarity)
      (Texture.range height).
Proof. reflexivity. Qed.

Lemma noise_row_state width height scale octaves persistence lacunarity y s :
  snd (noise_row Rng snoise3 width height scale octaves persistence lacunarity y s) = s.
Proof.
  unfold noise_row. apply for_each_state. intros a s0. reflexivity.
Qed.

Lemma noise_grid_facts (width height : Z) (scale : R) (octaves : Z)
    (persistence lacunarity : R) (s : Rng) :
  let r := Texture._create_seamless_noise Rng snoise3 width height scale
             octaves persistence lacunarity s in
  snd r = s /\
  (forall grid, fst r = inr grid ->
     List.length grid = Z.to_nat height /\
     Forall (fun row => List.length row = Z.to_nat width) grid).
Proof.
  intro r. unfold r. rewrite noise_as_rows. split.
  - apply for_each_state. intros y s0. apply noise_row_state.
  - intros grid H.
    destruct (Texture.for_each Rng _ (Texture.range height) s)
      as [res s'] eqn:E.
    simpl in H. subst res.
    destruct (for_each_inv (fun row => List.length row = Z.to_nat width) _ _
                (fun y s0 row s0' _ Hrow =>
                   eq_trans
                     (proj1 (for_each_inv (fun _ => True) _ _
                               (fun _ _ _ _ _ _ => I) s0 row s0' Hrow))
                     (range_length width))
                s grid s' E) as [Hl HQ].
    split; [rewrite Hl; apply range_length | exact HQ].
Qed.

(** X19. [_create_seamless_noise] never draws from the random
    generator, and when the noise function does not raise it returns
    [height] rows of [width] samples each. *)
Theorem X19_noise_grid_shape (width height : Z) (scale : R) (octaves : Z)
    (persistence lacunarity : R) (s : Rng) :
  let r := Texture._create_seamless_noise Rng snoise3 width height scale
             octaves persistence lacunarity s in
  snd r = s /\
  (forall grid, fst r = inr grid ->
     List.length grid = Z.to_nat height /\
     Forall (fun row => List.length row = Z.to_nat width) grid).
Proof.
  exact (noise_grid_facts width height scale octaves persistence
           lacunarity s).
Qed.

(** X20. The top row of the noise grid is the north pole: for row 0
    the colatitude is 0, so every texel of the row samples the noise
    at the one point (0, 0, scale) and the row holds a single value. *)
Theorem X20_noise_top_row_constant (width height : Z) (scale : R)
    (octaves : Z) (persistence lacunarity : R) (s s' : Rng)
    (row : list R) (rest : list (list R)) :
  Texture._create_seamless_noise Rng snoise3 width height scale octaves
    persistence lacunarity s = (inr (row :: rest), s') ->
  Forall (fun v => snoise3 0 0 scale octaves persistence lacunarity = inr v)
         row.
Proof.
  rewrite noise_as_rows. intro H.
  destruct (Texture.range height) as [|y ys] eqn:Er;
    [simpl in H; unfold Texture.ret in H; inversion H |].
  assert (Hy : y = 0%Z).
  { unfold Texture.range in Er.
    destruct (Z.to_nat height); simpl in Er; [discriminate |].
    inversion Er. reflexivity. }
  subst y. simpl in H. unfold Texture.bind in H.
  destruct (noise_row Rng snoise3 width height scale octaves persistence lacunarity 0 s)
    as [[e | row0] s1] eqn:E1; [discriminate |].
  destruct (Texture.for_each Rng _ ys s1) as [[e | rows] s2];
    [discriminate |].
  unfold Texture.ret in H. inversion H; subst.
  unfold noise_row in E1.
  refine (proj2 (for_each_inv
                   (fun v => snoise3 0 0 scale octaves persistence lacunarity
                             = inr v) _ _ _ s row s1 E1)).
  intros x s0 v s0' _ Hx. unfold Texture.lift in Hx. inversion Hx as [Hv].
  replace (IZR 0 / IZR height * PI) with 0 by (unfold Rdiv; ring).
  rewrite sin_0, cos_0.
  replace (cos (IZR x / IZR width * 2 * PI) * 0 * scale) with 0 by ring.
  replace (sin (IZR x / IZR width * 2 * PI) * 0 * scale) with 0 by ring.
  replace (1 * scale) with scale by ring.
  reflexivity.
Qed.

End TextureFacts.

Section TextureImage.

Variable Rng : Type.
Variable snoise3 : R -> R -> R -> Z -> R -> R -> Texture.exn + R.
Variable randint : Z -> Z -> Rng -> Z * Rng.
Variable uniform : R -> R -> Rng -> R * Rng.

Lemma to_uint8_range (v : R) : (0 <= Texture.to_uint8 v <= 255)%Z.
Proof.
  unfold Texture.to_uint8.
  assert (H0 : 0 <= clip v 0 255) by (apply clip_ge_lo; lra).
  pose proof (clip_le_hi v 0 255) as H1.
  destruct (base_Int_part (clip v 0 255)) as [Hb1 Hb2].
  split.
  - assert (Hlt : (-1 < Int_part (clip v 0 255))%Z) by (apply lt_IZR; lra).
    lia.
  - apply le_IZR. lra.
Qed.

Lemma noise_grid_shape (width height : Z) (scale : R) (octaves : Z)
    (persistence lacunarity : R) (s s' : Rng) (grid : list (list R)) :
  Texture._create_seamless_noise Rng snoise3 width height scale octaves
    persistence lacunarity s = (inr grid, s') ->
  has_shape (Z.to_nat height) (Z.to_nat width) grid.
Proof.
  intro H.
  destruct (noise_grid_facts Rng snoise3 width height scale octaves persistence
              lacunarity s) as [_ Hs].
  apply Hs. rewrite H. reflexivity.
Qed.

Lemma array_map2_shape (f : R -> R -> R) (h w : nat)
    (a b : list (list R)) :
  has_shape h w a -> has_shape h w b ->
  has_shape h w (Texture.array_map2 f a b).
Proof.
  intros [Ha1 Ha2] [Hb1 Hb2]. unfold Texture.array_map2, has_shape.
  split.
  - rewrite length_map, length_combine, Ha1, Hb1. apply Nat.min_id.
  - apply Forall_forall. intros row Hin.
    apply in_map_iff in Hin. destruct Hin as ([r1 r2] & Er & Hin).
    subst row. simpl. rewrite length_map, length_combine.
    rewrite Forall_forall in Ha2, Hb2.
    rewrite (Ha2 r1 (in_combine_l _ _ _ _ Hin)).
    rewrite (Hb2 r2 (in_combine_r _ _ _ _ Hin)).
    apply Nat.min_id.
Qed.

Lemma map_map_shape {A B : Type} (g : A -> B) (h w : nat)
    (a : list (list A)) :
  has_shape h w a -> has_shape h w (map (map g) a).
Proof.
  intros [H1 H2]. split.
  - rewrite length_map. exact H1.
  - apply Forall_forall. intros row Hin.
    apply in_map_iff in Hin. destruct Hin as (r & Er & Hin). subst row.
    rewrite length_map. rewrite Forall_forall in H2. apply H2. exact Hin.
Qed.

Lemma colored_pixel_in_range (cr cg cb : R) (s s' : Rng)
    (px : Texture.pixel) :
  Texture.bind Rng (Texture.uniform3 Rng uniform 0.99 1.01)
    (fun '(vr, vg, vb) =>
       Texture.ret Rng
         (Texture.to_uint8 (cr * vr), Texture.to_uint8 (cg * vg),
          Texture.to_uint8 (cb * vb))) s
  = (inr px, s') ->
  pixel_in_range px.
Proof.
  unfold Texture.bind, Texture.uniform3, Texture.ret.
  destruct (uniform 0.99 1.01 s) as [va sa].
  destruct (uniform 0.99 1.01 sa) as [vb sb].
  destruct (uniform 0.99 1.01 sb) as [vc sc].
  intro H. inversion H. unfold pixel_in_range.
  repeat split; apply to_uint8_range.
Qed.

Lemma colored_texture_shape (h w : nat) (noise : list (list R))
    (color1 color2 : Z * Z * Z) (s s' : Rng)
    (texture : list (list Texture.pixel)) :
  has_shape h w noise ->
  Texture._create_colored_texture Rng uniform noise color1 color2 s
  = (inr texture, s') ->
  has_shape h w texture /\ Forall (Forall pixel_in_range) texture.
Proof.
  intros [Hn1 Hn2] H. unfold Texture._create_colored_texture in H.
  rewrite Forall_forall in Hn2.
  destruct color1 as [[r1 g1] b1]; destruct color2 as [[r2 g2] b2].
  apply (for_each_inv Rng
           (fun row => List.length row = w /\ Forall pixel_in_range row))
    in H.
  - destruct H as [Hl HQ]. unfold has_shape. split; [split |].
    + rewrite Hl. exact Hn1.
    + eapply Forall_impl; [|exact HQ]. intros row [Hr _]. exact Hr.
    + eapply Forall_impl; [|exact HQ]. intros row [_ Hr]. exact Hr.
  - intros nrow s0 row s0' Hin Hrow.
    apply (for_each_inv Rng pixel_in_range) in Hrow.
    + destruct Hrow as [Hl Hp]. split; [|exact Hp].
      rewrite Hl. apply Hn2. exact Hin.
    + intros value s1 px s1' _ Hpx.
      exact (colored_pixel_in_range _ _ _ _ _ _ Hpx).
Qed.

Lemma generate_image_facts (width height : Z) (s s' : Rng)
    (img : Texture.Image) :
  Texture.generate Rng snoise3 randint uniform width height s
  = (inr img, s') ->
  (0 < width)%Z /\ (0 < height)%Z /\
  List.length (Texture.pixels img) = Z.to_nat height /\
  Forall (fun row => List.length row = Z.to_nat width) (Texture.pixels img) /\
  Forall (Forall pixel_in_range) (Texture.pixels img).
Proof.
  unfold Texture.generate.
  destruct ((width <=? 0)%Z || (height <=? 0)%Z)%bool eqn:G;
    [intro H; discriminate |].
  apply orb_false_iff in G. destruct G as [Gw Gh].
  apply Z.leb_gt in Gw. apply Z.leb_gt in Gh.
  unfold Texture.try_except, Texture.bind.
  destruct (Texture._create_seamless_noise Rng snoise3 width height 4 6 0.5 2 s)
    as [[e | base] s1] eqn:E1; [intro H; discriminate |].
  destruct (Texture._create_seamless_noise Rng snoise3 width height 20 8 0.6 2 s1)
    as [[e | detail] s2] eqn:E2; [intro H; discriminate |].
  pose proof (array_map2_shape (fun b d => b * 0.7 + d * 0.3) _ _ base detail
                (noise_grid_shape _ _ _ _ _ _ _ _ _ E1)
                (noise_grid_shape _ _ _ _ _ _ _ _ _ E2)) as Hc.
  set (combined := Texture.array_map2 (fun b d => b * 0.7 + d * 0.3)
                     base detail) in *.
  destruct (Texture.array_min Rng combined s2) as [[e | lo] s3];
    [intro H; discriminate |].
  destruct (Texture.array_max Rng combined s3) as [[e | hi] s4];
    [intro H; discriminate |].
  pose proof (map_map_shape (fun v => (v - lo) / (hi - lo)) _ _ combined Hc)
    as Hnorm.
  destruct (Texture.randint3 Rng randint 100 200 s4) as [[e | color1] s5];
    [intro H; discriminate |].
  destruct (Texture.randint3 Rng randint 100 200 s5) as [[e | color2] s6];
    [intro H; discriminate |].
  destruct (Texture._create_colored_texture Rng uniform _ color1 color2 s6)
    as [[e | texture] s7] eqn:E7; [intro H; discriminate |].
  unfold Texture.ret. intro H. inversion H; subst. simpl.
  destruct (colored_texture_shape _ _ _ _ _ _ _ _ Hnorm E7) as [[Hl Hr] Hp].
  repeat split; assumption.
Qed.

(** X21. Whenever [generate] returns an image, the image has [height]
    rows of [width] texels and every channel of every texel is an
    integer from 0 to 255, whatever the noise function and the random
    draws. *)
Theorem X21_generate_image_shape (width height : Z) (s s' : Rng)
    (img : Texture.Image) :
  Texture.generate Rng snoise3 randint uniform width height s
  = (inr img, s') ->
  (0 < width)%Z /\ (0 < height)%Z /\
  List.length (Texture.pixels img) = Z.to_nat height /\
  Forall (fun row => List.length row = Z.to_nat width) (Texture.pixels img) /\
  Forall (Forall pixel_in_range) (Texture.pixels img).
Proof. exact (generate_image_facts width height s s' img). Qed.

End TextureImage.

Section TextureSuccess.

Variable Rng : Type.
Variable snoise3 : R -> R -> R -> Z -> R -> R -> Texture.exn + R.
Variable randint : Z -> Z -> Rng -> Z * Rng.
Variable uniform : R -> R -> Rng -> R * Rng.

Hypothesis snoise3_total :
  forall a b c o p l, exists v, snoise3 a b c o p l = inr v.

Lemma noise_total (width height : Z) (scale : R) (octaves : Z)
    (persistence lacunarity : R) (s : Rng) :
  exists grid s',
    Texture._create_seamless_noise Rng snoise3 width height scale octaves
      persistence lacunarity s = (inr grid, s').
Proof.
  unfold Texture._create_seamless_noise.
  apply for_each_total. intros y s0.
  apply for_each_total. intros x s1.
  destruct (snoise3_total
              (cos (IZR x / IZR width * 2 * PI)
               * sin (IZR y / IZR height * PI) * scale)
              (sin (IZR x / IZR width * 2 * PI)
               * sin (IZR y / IZR height * PI) * scale)
              (cos (IZR y / IZR height * PI) * scale)
              octaves persistence lacunarity) as [v Hv].
  exists v, s1. unfold Texture.lift. simpl. rewrite Hv. reflexivity.
Qed.

Lemma shape_nonempty (h w : nat) (grid : list (list R)) :
  has_shape (S h) (S w) grid -> exists v vs, List.concat grid = v :: vs.
Proof.
  intros [H1 H2]. destruct grid as [|row rest]; [discriminate |].
  inversion H2 as [|? ? Hrow _]; subst.
  destruct row as [|v vs]; [discriminate |].
  simpl. eexists. eexists. reflexivity.
Qed.

Lemma colored_texture_total (noise : list (list R))
    (color1 color2 : Z * Z * Z) (s : Rng) :
  exists texture s',
    Texture._create_colored_texture Rng uniform noise color1 color2 s
    = (inr texture, s').
Proof.
  unfold Texture._create_colored_texture.
  destruct color1 as [[r1 g1] b1]; destruct color2 as [[r2 g2] b2].
  apply for_each_total. intros row s0.
  apply for_each_total. intros value s1.
  unfold Texture.bind, Texture.uniform3, Texture.ret.
  destruct (uniform 0.99 1.01 s1) as [va sa].
  destruct (uniform 0.99 1.01 sa) as [vb sb].
  destruct (uniform 0.99 1.01 sb) as [vc sc].
  eexists. eexists. reflexivity.
Qed.

Lemma generate_total (width height : Z) (s : Rng) :
  (0 < width)%Z -> (0 < height)%Z ->
  exists img s',
    Texture.generate Rng snoise3 randint uniform width height s
    = (inr img, s').
Proof.
  intros Hw Hh. unfold Texture.generate.
  replace ((width <=? 0)%Z || (height <=? 0)%Z)%bool with false.
  2:{ symmetry. apply orb_false_iff. split; apply Z.leb_gt; assumption. }
  unfold Texture.try_except, Texture.bind.
  destruct (noise_total width height 4 6 0.5 2 s) as (base & s1 & E1).
  rewrite E1.
  destruct (noise_total width height 20 8 0.6 2 s1) as (detail & s2 & E2).
  rewrite E2.
  pose proof (array_map2_shape (fun b d => b * 0.7 + d * 0.3) _ _ base detail
                (noise_grid_shape _ _ _ _ _ _ _ _ _ _ _ E1)
                (noise_grid_shape _ _ _ _ _ _ _ _ _ _ _ E2)) as Hc.
  set (combined := Texture.array_map2 (fun b d => b * 0.7 + d * 0.3)
                     base detail) in *.
  destruct (Z.to_nat height) as [|h'] eqn:Eh; [lia |].
  destruct (Z.to_nat width) as [|w'] eqn:Ew; [lia |].
  destruct (shape_nonempty h' w' combined Hc) as (v & vs & Ec).
  unfold Texture.array_min, Texture.array_max. rewrite Ec.
  unfold Texture.ret, Texture.randint3.
  destruct (randint 100 200 s2) as [a1 t1].
  destruct (randint 100 200 t1) as [a2 t2].
  destruct (randint 100 200 t2) as [a3 t3].
  destruct (randint 100 200 t3) as [a4 t4].
  destruct (randint 100 200 t4) as [a5 t5].
  destruct (randint 100 200 t5) as [a6 t6].
  match goal with
  | |- context [Texture._create_colored_texture Rng uniform ?n ?c1 ?c2 ?st] =>
      destruct (colored_texture_total n c1 c2 st) as (texture & s7 & E7);
      rewrite E7
  end.
  eexists. eexists. reflexivity.
Qed.

(** X23. For a positive width and height and a noise function that
    does not raise, [generate] returns an image: no other step of the
    generation can fail. *)
Theorem X23_generate_succeeds (width height : Z) (s : Rng) :
  (0 < width)%Z -> (0 < height)%Z ->
  exists img s',
    Texture.generate Rng snoise3 randint uniform width height s
    = (inr img, s') /\
    List.length (Texture.pixels img) = Z.to_nat height /\
    Forall (fun row => List.length row = Z.to_nat width)
           (Texture.pixels img).
Proof.
  intros Hw Hh.
  destruct (generate_total width height s Hw Hh) as (img & s' & E).
  exists img, s'. split; [exact E |].
  destruct (generate_image_facts Rng snoise3 randint uniform
              width height s s' img E) as (_ & _ & Hl & Hr & _).
  split; assumption.
Qed.

End TextureSuccess.

Section TextureFailure.

Variable Rng : Type.
Variable snoise3 : R -> R -> R -> Z -> R -> R -> Texture.exn + R.
Variable randint : Z -> Z -> Rng -> Z * Rng.
Variable uniform : R -> R -> Rng -> R * Rng.

(** A loop that raises passes on what one of its steps raised. *)
Lemma for_each_fails {A B : Type} (f : A -> Texture.M Rng B) (l : list A) :
  forall s e s',
    Texture.for_each Rng f l s = (inl e, s') ->
    exists a s0, In a l /\ f a s0 = (inl e, s').
Proof.
  induction l as [|a l IH]; intros s e s' H.
  - simpl in H. unfold Texture.ret in H. discriminate.
  - simpl in H. unfold Texture.bind in H.
    destruct (f a s) as [[e1 | b] s1] eqn:E1.
    + injection H as He Hs. subst e1 s1.
      exists a, s. split; [left; reflexivity | exact E1].
    + destruct (Texture.for_each Rng f l s1) as [[e2 | bs] s2] eqn:E2.
      * injection H as He Hs. subst e2 s2.
        destruct (IH s1 e s' E2) as (a0 & s0 & Hin & Hf).
        exists a0, s0. split; [right; exact Hin | exact Hf].
      * unfold Texture.ret in H. discriminate.
Qed.

(** What [_create_seamless_noise] raises was raised by a call of
    [snoise3], and the random generator is as before. *)
Lemma noise_fails (width height : Z) (scale : R) (octaves : Z)
    (persistence lacunarity : R) (s s' : Rng) (e : Texture.exn) :
  Texture._create_seamless_noise Rng snoise3 width height scale octaves
    persistence lacunarity s = (inl e, s') ->
  s' = s /\
  exists a b c, snoise3 a b c octaves persistence lacunarity = inl e.
Proof.
  intro H. split.
  - pose proof (proj1 (noise_grid_facts Rng snoise3 width height scale
                         octaves persistence lacunarity s)) as Hs.
    rewrite H in Hs. exact Hs.
  - unfold Texture._create_seamless_noise in H.
    apply for_each_fails in H. destruct H as (y & s0 & _ & H).
    apply for_each_fails in H. destruct H as (x & s1 & _ & H).
    unfold Texture.lift in H. injection H as He _.
    eexists. eexists. eexists. exact He.
Qed.

(** X22. Past the guard every failure of [generate] is the
    [RuntimeError] whose message is "Failed to generate texture: "
    followed by the text of the exception that the [try] block raised.
    That exception is the one raised by the base noise pass or, when
    the base pass returned, by the detail noise pass, so it was raised
    by a call of [snoise3]: no other step of the block raises.  The
    random generator has not been used. *)
Theorem X22_generate_failures_wrapped (width height : Z) (s s' : Rng)
    (e : Texture.exn) :
  (0 < width)%Z -> (0 < height)%Z ->
  Texture.generate Rng snoise3 randint uniform width height s = (inl e, s') ->
  s' = s /\
  exists cause,
    e = Texture.RuntimeError
          ("Failed to generate texture: " ++ Texture.str cause)%string /\
    (Texture._create_seamless_noise Rng snoise3 width height 4 6 0.5 2 s
     = (inl cause, s) \/
     (exists base,
        Texture._create_seamless_noise Rng snoise3 width height 4 6 0.5 2 s
        = (inr base, s)) /\
     Texture._create_seamless_noise Rng snoise3 width height 20 8 0.6 2 s
     = (inl cause, s)) /\
    exists a b c octaves persistence,
      snoise3 a b c octaves persistence 2 = inl cause.
Proof.
  intros Hw Hh. unfold Texture.generate.
  replace ((width <=? 0)%Z || (height <=? 0)%Z)%bool with false.
  2:{ symmetry. apply orb_false_iff. split; apply Z.leb_gt; assumption. }
  unfold Texture.try_except, Texture.bind.
  destruct (Texture._create_seamless_noise Rng snoise3 width height 4 6 0.5 2 s)
    as [[e1 | base] s1] eqn:E1.
  - unfold Texture.raise. intro H. injection H as He Hs. subst e s'.
    destruct (noise_fails _ _ _ _ _ _ _ _ _ E1) as [Es (a & b & c & Hc)].
    subst s1. split; [reflexivity |].
    exists e1. split; [reflexivity |].
    split; [left; reflexivity |].
    exists a, b, c, 6%Z, 0.5. exact Hc.
  - assert (Es : s1 = s).
    { pose proof (proj1 (noise_grid_facts Rng snoise3 width height 4 6 0.5 2
                           s)) as Hs.
      rewrite E1 in Hs. exact Hs. }
    subst s1.
    destruct (Texture._create_seamless_noise Rng snoise3 width height 20 8 0.6 2 s)
      as [[e2 | detail] s2] eqn:E2.
    + unfold Texture.raise. intro H. injection H as He Hs. subst e s'.
      destruct (noise_fails _ _ _ _ _ _ _ _ _ E2) as [Es (a & b & c & Hc)].
      subst s2. split; [reflexivity |].
      exists e2. split; [reflexivity |].
      split; [right; split; [exists base; reflexivity | reflexivity] |].
      exists a, b, c, 8%Z, 0.6. exact Hc.
    + intro H. exfalso. revert H.
      pose proof (array_map2_shape (fun b d => b * 0.7 + d * 0.3) _ _
                    base detail
                    (noise_grid_shape _ _ _ _ _ _ _ _ _ _ _ E1)
                    (noise_grid_shape _ _ _ _ _ _ _ _ _ _ _ E2)) as Hc.
      set (combined := Texture.array_map2 (fun b d => b * 0.7 + d * 0.3)
                         base detail) in *.
      destruct (Z.to_nat height) as [|h'] eqn:Eh; [lia |].
      destruct (Z.to_nat width) as [|w'] eqn:Ew; [lia |].
      destruct (shape_nonempty h' w' combined Hc) as (v & vs & Ec).
      unfold Texture.array_min, Texture.array_max. rewrite Ec.
      unfold Texture.ret, Texture.randint3.
      destruct (randint 100 200 s2) as [a1 t1].
      destruct (randint 100 200 t1) as [a2 t2].
      destruct (randint 100 200 t2) as [a3 t3].
      destruct (randint 100 200 t3) as [a4 t4].
      destruct (randint 100 200 t4) as [a5 t5].
      destruct (randint 100 200 t5) as [a6 t6].
      match goal with
      | |- context [Texture._create_colored_texture Rng uniform ?n ?c1 ?c2 ?st] =>
          destruct (colored_texture_total Rng uniform n c1 c2 st)
            as (texture & s7 & E7);
          rewrite E7
      end.
      discriminate.
Qed.

End TextureFailure.

(** ** Instances with a unit random state and constant outside functions *)

Lemma X20_noise_top_row_constant_witness :
  exists row rest s',
    Texture._create_seamless_noise unit (fun _ _ _ _ _ _ => inr 0.25)
      3 2 4 6 0.5 2 tt = (inr (row :: rest), s') /\
    Forall (fun v => inr 0.25 = inr (A := Texture.exn) v) row.
Proof.
  destruct (noise_total unit (fun _ _ _ _ _ _ => inr 0.25)
              (fun _ _ _ _ _ _ => ex_intro _ 0.25 eq_refl)
              3 2 4 6 0.5 2 tt) as (grid & s' & E).
  destruct (noise_grid_shape unit _ _ _ _ _ _ _ _ _ _ E) as [Hl _].
  destruct grid as [|row rest]; [discriminate |].
  exists row, rest, s'. split; [exact E |].
  exact (X20_noise_top_row_constant unit (fun _ _ _ _ _ _ => inr 0.25)
           3 2 4 6 0.5 2 tt s' row rest E).
Defined.

Lemma X21_generate_image_shape_witness :
  exists img s',
    Texture.generate unit (fun _ _ _ _ _ _ => inr 0.25)
      (fun lo _ s => (lo, s)) (fun lo _ s => (lo, s)) 3 2 tt
    = (inr img, s') /\
    List.length (Texture.pixels img) = 2%nat /\
    Forall (fun row => List.length row = 3%nat) (Texture.pixels img) /\
    Forall (Forall pixel_in_range) (Texture.pixels img).
Proof.
  destruct (generate_total unit (fun _ _ _ _ _ _ => inr 0.25)
              (fun lo _ s => (lo, s)) (fun lo _ s => (lo, s))
              (fun _ _ _ _ _ _ => ex_intro _ 0.25 eq_refl)
              3 2 tt eq_refl eq_refl) as (img & s' & E).
  exists img, s'. split; [exact E |].
  exact (proj2 (proj2 (X21_generate_image_shape unit _ _ _ 3 2 tt s' img E))).
Defined.

Lemma X22_generate_failures_wrapped_witness :
  let snoise3 := fun (_ _ _ : R) (_ : Z) (_ _ : R) =>
                   inl (B := R) (Texture.ValueError "no noise") in
  let e := Texture.RuntimeError "Failed to generate texture: no noise" in
  ((0 < 3)%Z /\ (0 < 2)%Z /\
   Texture.generate unit snoise3
     (fun lo _ s => (lo, s)) (fun lo _ s => (lo, s)) 3 2 tt
   = (inl e, tt)) /\
  exists cause,
    e = Texture.RuntimeError
          ("Failed to generate texture: " ++ Texture.str cause)%string /\
    exists a b c octaves persistence,
      snoise3 a b c octaves persistence 2 = inl cause.
Proof.
  intros snoise3 e.
  assert (E : Texture.generate unit snoise3
                (fun lo _ s => (lo, s)) (fun lo _ s => (lo, s)) 3 2 tt
              = (inl e, tt)).
  { exact (generate_wraps_noise_failure unit _ _ _
             (Texture.ValueError "no noise") 3 2 tt
             (fun _ _ _ _ _ _ => eq_refl) eq_refl eq_refl). }
  split; [split; [reflexivity | split; [reflexivity | exact E]] |].
  destruct (X22_generate_failures_wrapped unit snoise3 _ _ 3 2 tt tt e
              eq_refl eq_refl E) as (_ & cause & He & _ & Hc).
  exists cause. split; [exact He | exact Hc].
Defined.

Lemma X23_generate_succeeds_witness :
  ((forall a b c o p l : R,
      exists v, (fun _ _ _ (_ : Z) _ _ => inr (A := Texture.exn) 0.25)
                  a b c 0%Z p l = inr v) /\
   (0 < 3)%Z /\ (0 < 2)%Z) /\
  exists img s',
    Texture.generate unit (fun _ _ _ _ _ _ => inr 0.25)
      (fun lo _ s => (lo, s)) (fun lo _ s => (lo, s)) 3 2 tt
    = (inr img, s') /\
    List.length (Texture.pixels img) = 2%nat /\
    Forall (fun row => List.length row = 3%nat) (Texture.pixels img).
Proof.
  split.
  - split; [intros; exists 0.25; reflexivity | split; reflexivity].
  - exact (X23_generate_succeeds unit (fun _ _ _ _ _ _ => inr 0.25)
             (fun lo _ s => (lo, s)) (fun lo _ s => (lo, s))
             (fun _ _ _ _ _ _ => ex_intro _ 0.25 eq_refl)
             3 2 tt eq_refl eq_refl).
Defined.

(** * Edge cases of the configuration *)

(** X24. When the configuration has [max_distance] below
    [planet_radius + 0.1] (the field bounds allow it), the bounds handed
    to [np.clip] are inverted and every orbit [zoom] sets the distance
    to [max_distance] whatever the amount, which puts the camera inside
    the collision sphere. *)
Theorem X24_zoom_inverted_bounds (amount : R) (c : Camera) :
  mode c = orbit ->
  0 <= max_distance (config c) < planet_radius (config c) + 0.1 ->
  distance (zoom amount c) = max_distance (config c) /\
  Vec.norm (position (zoom amount c)) < planet_radius (config c) + 0.1.
Proof.
  intros Hm [H0 Hlt].
  destruct (zoom_orbit amount c Hm) as (_ & _ & Hd & Hn).
  assert (E : distance (zoom amount c) = max_distance (config c)).
  { rewrite Hd. unfold clip. apply Rmin_right.
    apply Rle_trans with (planet_radius (config c) + 0.1); [lra |].
    apply Rmax_r. }
  split; [exact E |].
  rewrite Hn, E, Rabs_pos_eq by exact H0. exact Hlt.
Qed.

Lemma X24_zoom_inverted_bounds_witness :
  let g := {| initial_distance := 10; max_distance := 20;
              mouse_sensitivity := 0.005; zoom_speed := 0.5;
              camera_speed := 0.1; camera_boost_factor := 2;
              planet_radius := 50;
              texture_width := 512; texture_height := 256 |} in
  let c := init g in
  (valid_config g /\ mode c = orbit /\
   0 <= max_distance (config c) < planet_radius (config c) + 0.1) /\
  distance (zoom (-3) c) = 20 /\
  Vec.norm (position (zoom (-3) c)) < 50 + 0.1.
Proof.
  intros g c.
  assert (Hv : valid_config g)
    by (unfold valid_config; simpl; repeat split; try lra; lia).
  assert (Hb : 0 <= max_distance (config c) < planet_radius (config c) + 0.1)
    by (simpl; lra).
  split; [split; [exact Hv | split; [reflexivity | exact Hb]] |].
  exact (X24_zoom_inverted_bounds (-3) c eq_refl Hb).
Defined.

Lemma idle_frame (g : Config) (dt t : R) (keys : Viewer.Pressed) :
  0 <= initial_distance g ->
  planet_radius g + 0.1 <= initial_distance g ->
  Viewer.frame dt [] keys (Viewer.mkViewer (init g) t)
  = (true, Viewer.mkViewer (init g) (t + dt)).
Proof.
  intros H0 Hr. unfold Viewer.frame, Viewer.handle_events. simpl.
  assert (Hu : update 0 0 dt (init g) = init g).
  { apply update_still_consistent.
    - simpl. lra.
    - apply init_pitch_clamped.
    - apply init_pose_consistent. }
  rewrite Hu. rewrite check_collision_unchanged; [reflexivity |].
  simpl. rewrite norm_z_axis by exact H0. exact Hr.
Qed.

(** X25. A viewer whose initial distance is outside the collision
    sphere does nothing to its camera while no event arrives: after any
    number of frames without events the camera is the fresh one,
    whatever keys are held (they only move a free camera) and however
    long the frames take, and the clock has advanced by the sum of the
    frame times. *)
Theorem X25_idle_frames_keep_camera (g : Config)
    (idle : list (R * Viewer.Pressed)) :
  0 <= initial_distance g ->
  planet_radius g + 0.1 <= initial_distance g ->
  Viewer.run (map (fun f => (fst f, [], snd f)) idle) (Viewer.init g)
  = Viewer.mkViewer (init g) (fold_left (fun t f => t + fst f) idle 0).
Proof.
  intros H0 Hr. unfold Viewer.init.
  assert (H : forall t,
            Viewer.run (map (fun f => (fst f, [], snd f)) idle)
                       (Viewer.mkViewer (init g) t)
            = Viewer.mkViewer (init g)
                (fold_left (fun t f => t + fst f) idle t)).
  { induction idle as [|[dt keys] rest IH]; intro t.
    - reflexivity.
    - cbn [map fst snd Viewer.run fold_left].
      rewrite (idle_frame g dt t keys H0 Hr). apply IH. }
  apply H.
Qed.

Lemma X25_idle_frames_keep_camera_witness :
  let keys := Viewer.mkPressed true false false true false false true false in
  (0 <= initial_distance default_config /\
   planet_radius default_config + 0.1 <= initial_distance default_config) /\
  Viewer.run [(0.25, [], keys); (0.5, [], keys)] (Viewer.init default_config)
  = Viewer.mkViewer (init default_config) (0 + 0.25 + 0.5).
Proof.
  intro keys.
  assert (H0 : 0 <= initial_distance default_config) by (simpl; lra).
  assert (Hr : planet_radius default_config + 0.1
               <= initial_distance default_config) by (simpl; lra).
  split; [split; assumption |].
  exact (X25_idle_frames_keep_camera default_config
           [(0.25, keys); (0.5, keys)] H0 Hr).
Defined.
